(** * The MapReduce worker of [src/mr/worker.go]

    A shallow embedding of the worker: the partitioner [iHash], the
    transport [call], the two executors [doMapTask] and [doReduceTask],
    and the task loop [Worker].  The worker is stateful and fallible, so
    its functions are written in a small state-and-abort monad over a
    [World] that holds the file system, the coordinator's future answers
    and the history of observable events. *)

From Stdlib Require Import ZArith String Ascii List Lia Permutation DecimalString.
From stdpp Require Import base option list gmap strings fin_maps.

Local Open Scope Z_scope.

(** ** Data model *)

(** [type KeyValue struct { Key string; Value string }].  A Go string is a
    sequence of bytes, as is a [string] here. *)
Record KeyValue := { Key : string; Value : string }.

(** The job kinds tested by [Worker]'s switch.  Their declaration is not
    in worker.go; the [default] branch of the switch shows that other
    values can arrive over the wire. *)
Inductive JobKind :=
| MapJob
| ReduceJob
| WaitJob
| CompleteJob
| OtherJob (code : Z).

(** The phases named in [doReport]'s calls. *)
Inductive SchedulePhase := MapPhase | ReducePhase.

(** The fields of [HeartbeatResponse] that worker.go reads. *)
Record HeartbeatResponse := {
  FilePath : string;
  JobType : JobKind;
  NReduce : Z;
  NMap : Z;
  Id : Z
}.

(** ** The partitioner *)

Module fnv.
(** hash/fnv: [offset32] and [prime32]. *)
Definition offset32 : Z := 2166136261.
Definition prime32 : Z := 16777619.

(** One round of [sum32a.Write]: [hash ^= c; hash *= prime32] on a
    [uint32]. *)
Definition round32a (hash : Z) (c : ascii) : Z :=
  (Z.lxor hash (Z.of_N (N_of_ascii c)) * prime32) mod 2 ^ 32.

(** [h := fnv.New32a(); h.Write(data); h.Sum32()]. *)
Definition Sum32a (data : string) : Z :=
  fold_left round32a (list_ascii_of_string data) offset32.
End fnv.

(** [func iHash(key string) int]. *)
Definition iHash (key : string) : Z :=
  Z.land (fnv.Sum32a key) 0x7fffffff.

(** The bucket of a key as [doMapTask] computes it,
    [iHash(kv.Key) % response.NReduce]; Go's [%] truncates like [Z.rem]. *)
Definition partition (key : string) (nReduce : Z) : Z :=
  Z.rem (iHash key) nReduce.

(** ** The world the worker runs in *)

(** What a path of the file system holds.  [NoAccess] is a file that
    exists but that [os.Open] refuses ([EACCES]); [Faulty] is a file whose
    reads deliver [prefix] and then an I/O error. *)
Inductive node :=
| Regular (content : string)
| NoAccess
| Faulty (prefix : string).

Inductive OpenError := ENOENT | EACCES.

(** An open [*os.File]. *)
Record File := { data : string; faulty : bool }.

(** The request and reply values of the two remote procedures. *)
Inductive RpcArgs :=
| HeartbeatRequest
| ReportRequest (id : Z) (phase : SchedulePhase).

Inductive Body :=
| HeartbeatBody (r : HeartbeatResponse)
| ReportBody.

(** What the coordinator does with the worker's next connection: refuse
    it, fail the call made on it, or serve the call with [body]. *)
Inductive Answer :=
| DialError
| CallError
| Served (body : Body).

(** The observable history.  [EvTask] marks the entry into an executor
    (a mark of the model: the code does nothing there) and [EvMapF],
    [EvReduceF] the calls of the user's callbacks; the others are the
    effects of [atomicWriteFile], [c.Call], [fmt.Println] and
    [time.Sleep].  What the worker writes to its log is left out. *)
Inductive Event :=
| EvTask (phase : SchedulePhase) (id : Z)
| EvMapF (fileName content : string)
| EvReduceF (key : string) (values : list string)
| EvCommit (path payload : string)
| EvCall (rpcName : string) (args : RpcArgs)
| EvPrintln
| EvSleep (d : Z).

Record World := {
  fs : gmap string node;
  unwritable : gset string;
  coordinator : list Answer;
  trace : list Event
}.

Definition with_fs (w : World) (f : gmap string node) : World :=
  {| fs := f; unwritable := unwritable w;
     coordinator := coordinator w; trace := trace w |}.

Definition with_coordinator (w : World) (c : list Answer) : World :=
  {| fs := fs w; unwritable := unwritable w;
     coordinator := c; trace := trace w |}.

Definition with_trace (w : World) (t : list Event) : World :=
  {| fs := fs w; unwritable := unwritable w;
     coordinator := coordinator w; trace := t |}.

(** ** The monad: state passing with process termination *)

(** [log.Fatal] exits the process, a run-time panic crashes it. *)
Inductive Abort :=
| LogFatal (msg : string)
| GoPanic (msg : string).

Inductive Outcome (A : Type) :=
| Done (a : A) (w : World)
| Crashed (why : Abort) (w : World).
Arguments Done {A} a w.
Arguments Crashed {A} why w.

Definition M (A : Type) : Type := World -> Outcome A.

Definition ret {A} (a : A) : M A := fun w => Done a w.

Definition bind {A B} (m : M A) (k : A -> M B) : M B :=
  fun w =>
    match m w with
    | Done a w' => k a w'
    | Crashed why w' => Crashed why w'
    end.

Declare Scope go_scope.
Delimit Scope go_scope with go.
Notation "'let!' x ':=' c 'in' k" := (bind c (fun x => k))
  (at level 10, x pattern, c at level 100, k at level 200) : go_scope.
Notation "c ;; k" := (bind c (fun _ => k))
  (at level 100, k at level 200, right associativity) : go_scope.
Local Open Scope go_scope.

Definition fatal {A} (msg : string) : M A := fun w => Crashed (LogFatal msg) w.
Definition panic {A} (msg : string) : M A := fun w => Crashed (GoPanic msg) w.

Definition emit (e : Event) : M unit :=
  fun w => Done tt (with_trace w (trace w ++ [e])).

(** A [for _, x := range l] loop that threads an accumulator. *)
Fixpoint foldM {A B} (f : A -> B -> M A) (l : list B) (a : A) : M A :=
  match l with
  | [] => ret a
  | x :: l' => let! a' := f a x in foldM f l' a'
  end.

(** The commits, the reduce callback's calls and the sleeps of a
    history, in its order. *)
Definition commits_of (t : list Event) : list (string * string) :=
  flat_map (fun e => match e with EvCommit path payload => [(path, payload)] | _ => [] end) t.

Definition calls_of (t : list Event) : list (string * list string) :=
  flat_map (fun e => match e with EvReduceF key values => [(key, values)] | _ => [] end) t.

(** The (key, value) pairs handed to the reduce callback by calls with
    the given arguments. *)
Definition delivered (entries : list (string * list string)) : list (string * string) :=
  flat_map (fun entry => map (pair entry.1) entry.2) entries.

Definition sleeps_of (t : list Event) : list Z :=
  flat_map (fun e => match e with EvSleep d => [d] | _ => [] end) t.

Definition reports_of (t : list Event) : list (Z * SchedulePhase) :=
  flat_map (fun e => match e with
                     | EvCall _ (ReportRequest id phase) => [(id, phase)]
                     | _ => []
                     end) t.

Definition tasks_of (t : list Event) : list (SchedulePhase * Z) :=
  flat_map (fun e => match e with EvTask phase id => [(phase, id)] | _ => [] end) t.

(** The world an outcome leaves behind. *)
Definition world_of {A} (o : Outcome A) : World :=
  match o with
  | Done _ w => w
  | Crashed _ w => w
  end.

Definition newline : string := String (ascii_of_nat 10) EmptyString.

(** ** The operating system and the libraries *)

(** What [os.Open] finds at a path. *)
Definition lookup_path (files : gmap string node) (name : string) : File + OpenError :=
  match files !! name with
  | None => inr ENOENT
  | Some NoAccess => inr EACCES
  | Some (Regular content) => inl {| data := content; faulty := false |}
  | Some (Faulty prefix) => inl {| data := prefix; faulty := true |}
  end.

(** [os.Open]. *)
Definition os_Open (name : string) : M (File + OpenError) :=
  fun w => Done (lookup_path (fs w) name) w.

(** [ioutil.ReadAll]: the whole content, or the read error. *)
Definition ReadAll (file : File) : option string :=
  if faulty file then None else Some (data file).

(** [time.Second], in nanoseconds, and [time.Sleep]. *)
Definition Second : Z := 1000000000.
Definition Sleep (d : Z) : M unit := emit (EvSleep d).

(** The world after [payload] has been published at [path]. *)
Definition publish (w : World) (path : string) (payload : string) : World :=
  with_trace (with_fs w (<[path := Regular payload]> (fs w)))
             (trace w ++ [EvCommit path payload]).

(** Modelled from the spec: [atomicWriteFile] is not in worker.go.  "Write
    the full payload to a freshly created temporary file in the same
    directory, then perform a single rename-style publish"; "if the
    temporary write fails, abort without touching the target path and
    surface the error to the caller as fatal"; "after a successful commit,
    the path contains exactly the committed payload".  The paths in
    [unwritable] are those where the write or the publish fails.  This is
    the writer as seen at its target path: the temporary file beside the
    target is not in the model. *)
Definition atomicWriteFile (path : string) (buf : string) : M unit :=
  fun w =>
    if decide (path ∈ unwritable w)
    then Crashed (LogFatal ("cannot write " +:+ path)) w
    else Done tt (publish w path buf).

(** A [json.Decoder] over a stream, seen as the results of its successive
    [Decode] calls: finitely many values, then the error that ends the
    stream ([io.EOF] at a clean end). *)
Inductive DecodeError := EOF | Malformed | ReadError.

Inductive Decoder :=
| Next (kv : KeyValue) (rest : Decoder)
| Fails (err : DecodeError).

(** A stream whose reads break off with an I/O error instead of ending. *)
Fixpoint interrupted (dec : Decoder) : Decoder :=
  match dec with
  | Next kv rest => Next kv (interrupted rest)
  | Fails EOF => Fails ReadError
  | Fails err => Fails err
  end.

(** The values a decoder yields before its first error. *)
Fixpoint values_of (dec : Decoder) : list KeyValue :=
  match dec with
  | Next kv rest => kv :: values_of rest
  | Fails _ => []
  end.

Fixpoint error_of (dec : Decoder) : DecodeError :=
  match dec with
  | Next _ rest => error_of rest
  | Fails err => err
  end.

(** [rpc.DialHTTP]: the connection, if the coordinator accepts one.  A
    coordinator that has no answer left is gone, and the dial fails. *)
Definition DialHTTP : M (option Answer) :=
  fun w =>
    match coordinator w with
    | [] => Done None w
    | DialError :: rest => Done None (with_coordinator w rest)
    | c :: rest => Done (Some c) (with_coordinator w rest)
    end.

(** [c.Call(rpcName, args, reply)]: the reply as the call leaves it, and
    whether the call failed.  A failed call leaves [reply] untouched, as
    does a body of the wrong type, which fails to decode. *)
Definition Call (c : Answer) (rpcName : string) (args : RpcArgs) (reply : Body)
  : M (Body * bool) :=
  emit (EvCall rpcName args) ;;
  ret (match c, reply with
       | Served (HeartbeatBody r), HeartbeatBody _ => (HeartbeatBody r, false)
       | Served ReportBody, ReportBody => (ReportBody, false)
       | _, _ => (reply, true)
       end).

(** ** The transport *)

(** [func call(rpcName string, args interface{}, reply interface{}) bool];
    [reply] is a pointer in Go, here the updated value is returned with
    the result. *)
Definition call (rpcName : string) (args : RpcArgs) (reply : Body) : M (bool * Body) :=
  let! c := DialHTTP in
  match c with
  | None => fatal "dialing:"
  | Some c =>
      let! (reply, err) := Call c rpcName args reply in
      if negb err then ret (true, reply)
      else emit EvPrintln ;; ret (false, reply)
  end.

(** ** Concrete stand-ins

    What worker.go takes from elsewhere, made concrete so that the model
    can be run on explicit worlds: file names, a line-oriented codec in
    the place of encoding/json, run-time orders, and a word count as the
    user's callbacks. *)

Module Sample.

Definition decimal (n : Z) : string := NilZero.string_of_int (Z.to_int n).

Definition mapResultName (mapId reduceId : Z) : string :=
  "mr-" +:+ decimal mapId +:+ "-" +:+ decimal reduceId.

Definition reduceResultName (reduceId : Z) : string :=
  "mr-out-" +:+ decimal reduceId.

Definition tab : ascii := ascii_of_nat 9.
Definition lf : ascii := ascii_of_nat 10.

Fixpoint mentions (c : ascii) (s : string) : bool :=
  match s with
  | EmptyString => false
  | String c' s' => if decide (c = c') then true else mentions c s'
  end.

(** A record is written as its key, a tab, its value and a line feed;
    keys and values that would break the framing are refused. *)
Definition encode (kv : KeyValue) : option string :=
  if mentions tab (Key kv) || mentions lf (Key kv) || mentions lf (Value kv)
  then None
  else Some (Key kv +:+ String tab (Value kv +:+ String lf EmptyString)).

(** The decoder of that format: [key] is the key of the line being
    read, once its tab has been seen, and [field] the bytes read since
    the line's start or its tab. *)
Fixpoint scan (s : string) (key : option string) (field : string) : Decoder :=
  match s with
  | EmptyString =>
      match key, field with
      | None, EmptyString => Fails EOF
      | _, _ => Fails Malformed
      end
  | String c s' =>
      if decide (c = lf) then
        match key with
        | Some k => Next {| Key := k; Value := field |} (scan s' None EmptyString)
        | None => Fails Malformed
        end
      else if decide (c = tab) then
        match key with
        | None => scan s' (Some field) EmptyString
        | Some _ => scan s' key (field +:+ String c EmptyString)
        end
      else scan s' key (field +:+ String c EmptyString)
  end.

Definition decode (s : string) : Decoder := scan s None EmptyString.

(** Goroutines that commit in the order they were started, or in the
    opposite order; a map ranged over in the order of its listing. *)
Definition inOrder (w : World) (n : nat) : list nat := seq 0 n.
Definition lastFirst (w : World) (n : nat) : list nat := rev (seq 0 n).
Definition listed (w : World) (m : gmap string (list string))
  : list (string * list string) := map_to_list m.

(** Word count: one record [(word, 1)] for every word of the content,
    and the number of a word's records. *)
Fixpoint words (s : string) (word : string) : list string :=
  match s with
  | EmptyString => if decide (word = EmptyString) then [] else [word]
  | String c s' =>
      if decide (c = " "%char)
      then (if decide (word = EmptyString) then [] else [word]) ++ words s' EmptyString
      else words s' (word +:+ String c EmptyString)
  end.

Definition mapF (fileName content : string) : list KeyValue :=
  map (fun word => {| Key := word; Value := "1" |}) (words content EmptyString).

Definition reduceF (key : string) (values : list string) : string :=
  decimal (Z.of_nat (length values)).

Definition zeroJob : JobKind := MapJob.

(** One encoded record. *)
Definition row (key value : string) : string :=
  key +:+ String tab (value +:+ String lf EmptyString).

(** A map task over the text [a b a], cut into two partitions. *)
Definition mapTask : HeartbeatResponse :=
  {| FilePath := "in.txt"; JobType := MapJob; NReduce := 2; NMap := 1; Id := 0 |}.

Definition mapWorld : World :=
  {| fs := {[ "in.txt" := Regular "a b a" ]};
     unwritable := ∅;
     coordinator := [Served ReportBody];
     trace := [] |}.

(** The same task over the text [c b a]: [c] and [a] go to partition 0
    and [b] to partition 1, so bucket 0 gets two different records, [c]
    before [a]. *)
Definition orderWorld : World :=
  {| fs := {[ "in.txt" := Regular "c b a" ]};
     unwritable := ∅;
     coordinator := [Served ReportBody];
     trace := [] |}.

(** The reduce task of partition 0 after two map tasks, and after one. *)
Definition reduceTask : HeartbeatResponse :=
  {| FilePath := ""; JobType := ReduceJob; NReduce := 2; NMap := 2; Id := 0 |}.

Definition reduceOne : HeartbeatResponse :=
  {| FilePath := ""; JobType := ReduceJob; NReduce := 2; NMap := 1; Id := 0 |}.

Definition reduceWorld : World :=
  {| fs := {[ "mr-0-0" := Regular (row "a" "1" +:+ row "b" "1");
              "mr-1-0" := Regular (row "a" "2") ]};
     unwritable := ∅;
     coordinator := [Served ReportBody];
     trace := [] |}.

(** The file of map task 0 ends in a byte that is no record, the file
    of map task 1 breaks off with a read error. *)
Definition brokenWorld : World :=
  {| fs := {[ "mr-0-0" := Regular (row "a" "1" +:+ "{");
              "mr-1-0" := Faulty (row "b" "2") ]};
     unwritable := ∅;
     coordinator := [Served ReportBody];
     trace := [] |}.

(** The file of map task 0 cannot be opened. *)
Definition lockedWorld : World :=
  {| fs := {[ "mr-0-0" := NoAccess ]};
     unwritable := ∅;
     coordinator := [Served ReportBody];
     trace := [] |}.

(** The file of map task 1 does not exist, or exists and is empty. *)
Definition missingWorld : World :=
  {| fs := {[ "mr-0-0" := Regular (row "a" "1") ]};
     unwritable := ∅;
     coordinator := [Served ReportBody];
     trace := [] |}.

Definition emptyFileWorld : World :=
  {| fs := {[ "mr-0-0" := Regular (row "a" "1");
              "mr-1-0" := Regular EmptyString ]};
     unwritable := ∅;
     coordinator := [Served ReportBody];
     trace := [] |}.

(** The only intermediate file is an opening brace, which is no
    record, neither here nor for encoding/json. *)
Definition garbledWorld : World :=
  {| fs := {[ "mr-0-0" := Regular "{" ]};
     unwritable := ∅;
     coordinator := [Served ReportBody];
     trace := [] |}.

(** A coordinator that says wait, wait, complete. *)
Definition idle (job : JobKind) : HeartbeatResponse :=
  {| FilePath := ""; JobType := job; NReduce := 2; NMap := 2; Id := 0 |}.

Definition idleWorld : World :=
  {| fs := ∅;
     unwritable := ∅;
     coordinator := [Served (HeartbeatBody (idle WaitJob));
                     Served (HeartbeatBody (idle WaitJob));
                     Served (HeartbeatBody (idle CompleteJob))];
     trace := [] |}.

(** A coordinator that hands out a reduce task over no map task, fails
    the call that reports it, and then says complete. *)
Definition reduceNone : HeartbeatResponse :=
  {| FilePath := ""; JobType := ReduceJob; NReduce := 1; NMap := 0; Id := 0 |}.

Definition flakyWorld : World :=
  {| fs := ∅;
     unwritable := ∅;
     coordinator := [Served (HeartbeatBody reduceNone);
                     CallError;
                     Served (HeartbeatBody (idle CompleteJob))];
     trace := [] |}.

(** A map task whose input breaks off while it is read, and one with
    no partition at all. *)
Definition unreadableWorld : World :=
  {| fs := {[ "in.txt" := Faulty "a b" ]};
     unwritable := ∅;
     coordinator := [Served ReportBody];
     trace := [] |}.

Definition zeroTask : HeartbeatResponse :=
  {| FilePath := "in.txt"; JobType := MapJob; NReduce := 0; NMap := 1; Id := 0 |}.

(** A coordinator that answers with a job type of its own. *)
Definition strangeWorld : World :=
  {| fs := ∅;
     unwritable := ∅;
     coordinator := [Served (HeartbeatBody (idle (OtherJob 7)))];
     trace := [] |}.


End Sample.

(** ** The worker *)

Section Worker.

(** Declared elsewhere in the package: the names of the intermediate
    and output files, and the zero value of the job type (the type and
    its constants are not in worker.go). *)
Variable generateMapResultFileName : Z -> Z -> string.
Variable generateReduceResultFileName : Z -> string.
Variable zeroJob : JobKind.

(** encoding/json: the bytes [enc.Encode(&kv)] appends to its buffer,
    or [None] for an error; and the decoder over a complete byte
    stream. *)
Variable Encode : KeyValue -> option string.
Variable Decode : string -> Decoder.

(** The Go run time: the order in which the [n] goroutines started by
    [doMapTask] reach their commit, and the order in which [range]
    visits the entries of a map (both may depend on everything that
    happened before). *)
Variable goOrder : World -> nat -> list nat.
Variable rangeOrder :
  World -> gmap string (list string) -> list (string * list string).

(** The user's callbacks. *)
Variable mapF : string -> string -> list KeyValue.
Variable reduceF : string -> list string -> string.

(** [HeartbeatResponse{}]. *)
Definition zeroResponse : HeartbeatResponse :=
  {| FilePath := ""; JobType := zeroJob; NReduce := 0; NMap := 0; Id := 0 |}.

(** [json.NewDecoder(file)]. *)
Definition NewDecoder (file : File) : Decoder :=
  if faulty file then interrupted (Decode (data file)) else Decode (data file).

(** [func doHeartbeat() *HeartbeatResponse]; the result of [call] is
    dropped. *)
Definition doHeartbeat : M HeartbeatResponse :=
  let response := zeroResponse in
  let! (_, reply) := call "Coordinator.Heartbeat" HeartbeatRequest
                          (HeartbeatBody response) in
  ret (match reply with
       | HeartbeatBody r => r
       | ReportBody => response
       end).

(** [func doReport(id int, phase SchedulePhase)]. *)
Definition doReport (id : Z) (phase : SchedulePhase) : M unit :=
  let! _ := call "Coordinator.Report" (ReportRequest id phase) ReportBody in
  ret tt.

(** *** The map executor *)

(** [make([][]KeyValue, n)]. *)
Definition make (n : Z) : M (list (list KeyValue)) :=
  if n <? 0 then panic "makeslice: len out of range"
  else ret (replicate (Z.to_nat n) []).

(** [s[i]] with Go's bounds check. *)
Definition index {A} (s : list A) (i : Z) : option A :=
  if i <? 0 then None else s !! Z.to_nat i.

(** The body of the routing loop:
    [index := iHash(kv.Key) % response.NReduce;
     intermediates[index] = append(intermediates[index], kv)]. *)
Definition route (nReduce : Z) (intermediates : list (list KeyValue))
           (kv : KeyValue) : M (list (list KeyValue)) :=
  if nReduce =? 0 then panic "integer divide by zero"
  else
    let i := Z.rem (iHash (Key kv)) nReduce in
    match index intermediates i with
    | Some bucket => ret (<[Z.to_nat i := bucket ++ [kv]]> intermediates)
    | None => panic "index out of range"
    end.

(** The encoding loop of a goroutine: [enc.Encode(&kv)] for each record
    of the bucket, into one buffer. *)
Definition encodeLoop (intermediate : list KeyValue) : M string :=
  foldM (fun buf kv =>
           match Encode kv with
           | Some bytes => ret (buf +:+ bytes)
           | None => fatal ("cannot encode json " +:+ Key kv)
           end) intermediate "".

(** The goroutine started for one bucket. *)
Definition goroutine (response : HeartbeatResponse) (i : nat)
           (intermediate : list KeyValue) : M unit :=
  let intermediateFilePath :=
    generateMapResultFileName (Id response) (Z.of_nat i) in
  let! buf := encodeLoop intermediate in
  atomicWriteFile intermediateFilePath buf.

(** [for index, intermediate := range intermediates { go ... }] up to
    [wg.Wait()].  A goroutine touches the world only in its commit, or
    ends the process, so a run of the goroutines is an order of
    them. *)
Definition fanOut (response : HeartbeatResponse)
           (intermediates : list (list KeyValue)) : M unit :=
  fun w =>
    foldM (fun _ i =>
             match intermediates !! i with
             | Some intermediate => goroutine response i intermediate
             | None => ret tt
             end)
          (goOrder w (length intermediates)) tt w.

(** [func doMapTask(mapF, response)]. *)
Definition doMapTask (response : HeartbeatResponse) : M unit :=
  emit (EvTask MapPhase (Id response)) ;;
  let fileName := FilePath response in
  let! file := os_Open fileName in
  match file with
  | inr _ => fatal ("cannot open " +:+ fileName)
  | inl file =>
      match ReadAll file with
      | None => fatal ("cannot read " +:+ fileName)
      | Some content =>
          emit (EvMapF fileName content) ;;
          let kva := mapF fileName content in
          let! intermediates := make (NReduce response) in
          let! intermediates := foldM (route (NReduce response)) kva intermediates in
          fanOut response intermediates ;;
          doReport (Id response) MapPhase
      end
  end.

(** *** The reduce executor *)

(** [for { var kv KeyValue; if err := dec.Decode(&kv); err != nil
    { break }; kva = append(kva, kv) }]. *)
Fixpoint decodeLoop (dec : Decoder) (kva : list KeyValue) : list KeyValue :=
  match dec with
  | Next kv rest => decodeLoop rest (kva ++ [kv])
  | Fails _ => kva
  end.

(** [for i := 0; i < response.NMap; i++ { ... }], with [n] rounds left
    from [i] on. *)
Fixpoint readLoop (response : HeartbeatResponse) (n : nat) (i : Z)
         (kva : list KeyValue) : M (list KeyValue) :=
  match n with
  | O => ret kva
  | S n' =>
      let filePath := generateMapResultFileName i (Id response) in
      let! file := os_Open filePath in
      match file with
      | inr _ => fatal ("cannot open " +:+ filePath)
      | inl file =>
          let dec := NewDecoder file in
          readLoop response n' (i + 1) (decodeLoop dec kva)
      end
  end.

(** [results[kv.Key] = append(results[kv.Key], kv.Value)] over [kva]. *)
Definition group (kva : list KeyValue) : gmap string (list string) :=
  fold_left (fun results kv =>
               <[Key kv := default [] (results !! Key kv) ++ [Value kv]]> results)
            kva ∅.

(** [for key, values := range results { output := reduceF(key, values);
    fmt.Fprintf(&buf, "%v %v\n", key, output) }]. *)
Definition line (key : string) (values : list string) : string :=
  key +:+ " " +:+ reduceF key values +:+ newline.

Definition reduceLoop (results : gmap string (list string)) : M string :=
  fun w =>
    foldM (fun buf entry =>
             emit (EvReduceF entry.1 entry.2) ;;
             ret (buf +:+ line entry.1 entry.2))
          (rangeOrder w results) "" w.

(** [func doReduceTask(reduceF, response)]. *)
Definition doReduceTask (response : HeartbeatResponse) : M unit :=
  emit (EvTask ReducePhase (Id response)) ;;
  let! kva := readLoop response (Z.to_nat (NMap response)) 0 [] in
  let results := group kva in
  let! buf := reduceLoop results in
  atomicWriteFile (generateReduceResultFileName (Id response)) buf ;;
  doReport (Id response) ReducePhase.

(** *** The task loop *)

(** One round of [Worker]'s [for]: [true] to go round again, [false]
    for the [return]. *)
Definition round : M bool :=
  let! response := doHeartbeat in
  match JobType response with
  | MapJob => doMapTask response ;; ret true
  | ReduceJob => doReduceTask response ;; ret true
  | WaitJob => Sleep (1 * Second) ;; ret true
  | CompleteJob => ret false
  | OtherJob _ => panic "unexpected jobType"
  end.

(** The loop with a bound on its rounds; [None] when the bound is too
    small. *)
Fixpoint rounds (fuel : nat) (w : World) : option (Outcome unit) :=
  match fuel with
  | O => None
  | S fuel' =>
      match round w with
      | Done true w' => rounds fuel' w'
      | Done false w' => Some (Done tt w')
      | Crashed why w' => Some (Crashed why w')
      end
  end.

(** [func Worker(mapF, reduceF)].  Every round uses up one of the
    coordinator's answers or ends the loop, so this bound is enough
    (see [Worker_total]). *)
Definition Worker (w : World) : option (Outcome unit) :=
  rounds (S (length (coordinator w))) w.

(** *** What the statements below speak of *)


(** The bytes of a bucket's file: the encodings of its records, one
    after the other. *)
Definition encoded (records : list KeyValue) : string :=
  foldr (fun kv rest => default EmptyString (Encode kv) +:+ rest) EmptyString records.

(** The records of [kva] that are routed to bucket [i], in the order of
    [kva]. *)
Definition bucket (nReduce : Z) (kva : list KeyValue) (i : nat) : list KeyValue :=
  filter (fun kv => partition (Key kv) nReduce = Z.of_nat i) kva.

(** The [nReduce] buckets of [kva]. *)
Definition buckets (nReduce : Z) (kva : list KeyValue) : list (list KeyValue) :=
  map (bucket nReduce kva) (seq 0 (Z.to_nat nReduce)).

(** The world after the buckets of [kva] listed in [order] have been
    committed, one after the other, as the files of map task
    [Id response]. *)
Definition published (response : HeartbeatResponse) (kva : list KeyValue)
           (order : list nat) (w : World) : World :=
  fold_left (fun w i =>
               publish w (generateMapResultFileName (Id response) (Z.of_nat i))
                       (encoded (bucket (NReduce response) kva i)))
            order w.

(** The records the reduce executor decodes from the file at [path]. *)
Definition records_at (files : gmap string node) (path : string) : list KeyValue :=
  match lookup_path files path with
  | inl file => values_of (NewDecoder file)
  | inr _ => []
  end.

(** The records of [n] intermediate files of partition [p], taken in
    ascending order of the map task id from [i] on. *)
Definition sources (files : gmap string node) (p : Z) (i : Z) (n : nat)
  : list KeyValue :=
  flat_map (fun k => records_at files (generateMapResultFileName (i + Z.of_nat k) p))
           (seq 0 n).

(** The values of [key] in [kva], in the order of [kva]. *)
Definition values_for (key : string) (kva : list KeyValue) : list string :=
  map Value (filter (fun kv => Key kv = key) kva).

(** The text of an output file that has one line for each entry. *)
Definition lines (entries : list (string * list string)) : string :=
  foldr (fun entry rest => line entry.1 entry.2 +:+ rest) EmptyString entries.

(** ** Properties *)

(** *** The partitioner *)

Lemma iHash_masked (key : string) : iHash key = fnv.Sum32a key mod 2 ^ 31.
Proof.
  unfold iHash. change 0x7fffffff with (Z.ones 31).
  now rewrite Z.land_ones by lia.
Qed.

Lemma iHash_range (key : string) : 0 <= iHash key < 2 ^ 31.
Proof. rewrite iHash_masked. apply Z.mod_pos_bound. lia. Qed.

Lemma partition_range (key : string) (nReduce : Z) :
  1 <= nReduce -> 0 <= partition key nReduce < nReduce.
Proof.
  intros HN. unfold partition.
  apply Z.rem_bound_pos; [apply iHash_range | lia].
Qed.

(** C2: for every key and every partition count [nReduce >= 1] the
    partition of the key, the masked 32-bit FNV-1a hash reduced modulo
    [nReduce], lies in [0, nReduce), and it is a function of the key
    and the count alone: equal keys and counts give equal partitions. *)
Theorem partition_in_range_and_deterministic (key : string) (nReduce : Z) :
  1 <= nReduce ->
  0 <= partition key nReduce < nReduce /\
  partition key nReduce = (fnv.Sum32a key mod 2 ^ 31) mod nReduce /\
  (forall key' nReduce',
      key' = key -> nReduce' = nReduce ->
      partition key' nReduce' = partition key nReduce).
Proof.
  intros HN. split; [|split].
  - now apply partition_range.
  - unfold partition. rewrite <- iHash_masked.
    apply Z.rem_mod_nonneg; [apply iHash_range | lia].
  - intros key' nReduce' -> ->. reflexivity.
Qed.

(** *** The transport *)

Lemma call_refused rpcName args reply (w : World) (rest : list Answer) :
  call rpcName args reply (with_coordinator w (DialError :: rest))
  = Crashed (LogFatal "dialing:") (with_coordinator w rest).
Proof. reflexivity. Qed.

Lemma call_gone rpcName args reply (w : World) :
  call rpcName args reply (with_coordinator w [])
  = Crashed (LogFatal "dialing:") (with_coordinator w []).
Proof. reflexivity. Qed.

Lemma call_failed rpcName args reply (w : World) (rest : list Answer) :
  call rpcName args reply (with_coordinator w (CallError :: rest))
  = Done (false, reply)
         (with_trace (with_coordinator w rest)
                     (trace w ++ [EvCall rpcName args; EvPrintln])).
Proof.
  unfold call, bind, DialHTTP, Call, emit, ret, with_trace, with_coordinator.
  simpl. now rewrite <- app_assoc.
Qed.

(** C8, as the code has it: a failed dial is fatal (the process exits
    through [log.Fatal]), whether the coordinator refuses the connection
    or is gone.  A failed remote call is not: [call] prints the error
    and returns [false] with the reply untouched, and since both callers
    drop that result the worker goes on, [doHeartbeat] with the zero
    response and [doReport] as after an acknowledged report. *)
Theorem call_dial_fatal_call_error_continues
        (rpcName : string) (args : RpcArgs) (reply : Body)
        (id : Z) (phase : SchedulePhase) (w : World) (rest : list Answer) :
  call rpcName args reply (with_coordinator w [])
  = Crashed (LogFatal "dialing:") (with_coordinator w []) /\
  call rpcName args reply (with_coordinator w (DialError :: rest))
  = Crashed (LogFatal "dialing:") (with_coordinator w rest) /\
  call rpcName args reply (with_coordinator w (CallError :: rest))
  = Done (false, reply)
         (with_trace (with_coordinator w rest)
                     (trace w ++ [EvCall rpcName args; EvPrintln])) /\
  doHeartbeat (with_coordinator w (CallError :: rest))
  = Done zeroResponse
         (with_trace (with_coordinator w rest)
                     (trace w ++ [EvCall "Coordinator.Heartbeat" HeartbeatRequest;
                                  EvPrintln])) /\
  doReport id phase (with_coordinator w (CallError :: rest))
  = Done tt
         (with_trace (with_coordinator w rest)
                     (trace w ++ [EvCall "Coordinator.Report" (ReportRequest id phase);
                                  EvPrintln])).
Proof.
  repeat split.
  - apply call_failed.
  - unfold doHeartbeat, bind. now rewrite call_failed.
  - unfold doReport, bind. now rewrite call_failed.
Qed.

(** *** The task loop *)

Lemma doHeartbeat_served (w : World) (r : HeartbeatResponse) (rest : list Answer) :
  coordinator w = Served (HeartbeatBody r) :: rest ->
  doHeartbeat w
  = Done r (with_trace (with_coordinator w rest)
                       (trace w ++ [EvCall "Coordinator.Heartbeat" HeartbeatRequest])).
Proof.
  intros Hc. unfold doHeartbeat, call, bind, DialHTTP. rewrite Hc. reflexivity.
Qed.

Lemma round_wait (w : World) (r : HeartbeatResponse) (rest : list Answer) :
  coordinator w = Served (HeartbeatBody r) :: rest ->
  JobType r = WaitJob ->
  round w
  = Done true (with_trace (with_coordinator w rest)
                          (trace w ++ [EvCall "Coordinator.Heartbeat" HeartbeatRequest;
                                       EvSleep (1 * Second)])).
Proof.
  intros Hc Hj. unfold round, bind.
  rewrite (doHeartbeat_served w r rest Hc), Hj.
  unfold Sleep, emit, ret, with_trace, with_coordinator. simpl.
  now rewrite <- app_assoc.
Qed.

Lemma round_complete (w : World) (r : HeartbeatResponse) (rest : list Answer) :
  coordinator w = Served (HeartbeatBody r) :: rest ->
  JobType r = CompleteJob ->
  round w
  = Done false (with_trace (with_coordinator w rest)
                           (trace w ++ [EvCall "Coordinator.Heartbeat" HeartbeatRequest])).
Proof.
  intros Hc Hj. unfold round, bind.
  now rewrite (doHeartbeat_served w r rest Hc), Hj.
Qed.

Lemma rounds_S (fuel : nat) (w : World) :
  rounds (S fuel) w
  = match round w with
    | Done true w' => rounds fuel w'
    | Done false w' => Some (Done tt w')
    | Crashed why w' => Some (Crashed why w')
    end.
Proof. reflexivity. Qed.

(** C9, as the code has it: a worker that is told to wait twice and
    then that the job is complete sleeps twice, one second after each
    of the two wait responses, and then returns; it enters no executor,
    sends no report and leaves the file system as it was. *)
Theorem wait_wait_complete_sleeps_twice
        (w : World) (r1 r2 r3 : HeartbeatResponse) (rest : list Answer) :
  coordinator w
  = Served (HeartbeatBody r1) :: Served (HeartbeatBody r2)
      :: Served (HeartbeatBody r3) :: rest ->
  JobType r1 = WaitJob -> JobType r2 = WaitJob -> JobType r3 = CompleteJob ->
  exists w',
    Worker w = Some (Done tt w') /\
    trace w' = trace w ++ [EvCall "Coordinator.Heartbeat" HeartbeatRequest;
                           EvSleep (1 * Second);
                           EvCall "Coordinator.Heartbeat" HeartbeatRequest;
                           EvSleep (1 * Second);
                           EvCall "Coordinator.Heartbeat" HeartbeatRequest] /\
    sleeps_of (trace w') = sleeps_of (trace w) ++ [Second; Second] /\
    tasks_of (trace w') = tasks_of (trace w) /\
    reports_of (trace w') = reports_of (trace w) /\
    fs w' = fs w /\
    coordinator w' = rest.
Proof.
  intros Hc H1 H2 H3.
  eexists. split.
  - unfold Worker. rewrite Hc. simpl length.
    rewrite rounds_S, (round_wait w r1 _ Hc H1).
    rewrite rounds_S. erewrite (round_wait _ r2) by (reflexivity || exact H2).
    rewrite rounds_S. erewrite (round_complete _ r3) by (reflexivity || exact H3).
    reflexivity.
  - cbn. rewrite <- !app_assoc. cbn.
    repeat split.
    + unfold sleeps_of. rewrite !flat_map_app. cbn. reflexivity.
    + unfold tasks_of. rewrite !flat_map_app. cbn. now rewrite app_nil_r.
    + unfold reports_of. rewrite !flat_map_app. cbn. now rewrite app_nil_r.
Qed.

(** *** The reduce executor *)

Lemma string_app_assoc (a b c : string) : (a +:+ b) +:+ c = a +:+ (b +:+ c).
Proof.
  induction a as [|x a IH]; [reflexivity|].
  change (String x ((a +:+ b) +:+ c) = String x (a +:+ (b +:+ c))).
  now rewrite IH.
Qed.

Lemma string_app_nil_r (a : string) : a +:+ EmptyString = a.
Proof.
  induction a as [|x a IH]; [reflexivity|].
  change (String x (a +:+ EmptyString) = String x a).
  now rewrite IH.
Qed.

Lemma with_trace_same (w : World) : with_trace w (trace w) = w.
Proof. now destruct w. Qed.

Lemma bind_bind {A B C} (m : M A) (k : A -> M B) (k' : B -> M C) (w : World) :
  bind (bind m k) k' w = bind m (fun a => bind (k a) k') w.
Proof. unfold bind. now destruct (m w). Qed.

Lemma bind_ret {A B} (a : A) (k : A -> M B) (w : World) :
  bind (ret a) k w = k a w.
Proof. reflexivity. Qed.

Lemma bind_emit {B} (e : Event) (k : unit -> M B) (w : World) :
  bind (emit e) k w = k tt (with_trace w (trace w ++ [e])).
Proof. reflexivity. Qed.

Lemma bind_Done {A B} (m : M A) (k : A -> M B) (w w' : World) (a : A) :
  m w = Done a w' -> bind m k w = k a w'.
Proof. unfold bind. now intros ->. Qed.

Lemma bind_Crashed {A B} (m : M A) (k : A -> M B) (w w' : World) (why : Abort) :
  m w = Crashed why w' -> bind m k w = Crashed why w'.
Proof. unfold bind. now intros ->. Qed.

Lemma decodeLoop_values (dec : Decoder) (kva : list KeyValue) :
  decodeLoop dec kva = kva ++ values_of dec.
Proof.
  revert kva. induction dec as [kv rest IH | err]; intros kva; simpl.
  - rewrite IH, <- app_assoc. reflexivity.
  - now rewrite app_nil_r.
Qed.

Lemma flat_map_shift {A} (f : nat -> list A) (start len : nat) :
  flat_map f (seq (S start) len) = flat_map (fun k => f (S k)) (seq start len).
Proof.
  revert start. induction len as [|len IH]; intros start; simpl;
    [reflexivity | now rewrite IH].
Qed.

Lemma sources_S (files : gmap string node) (p i : Z) (n : nat) :
  sources files p i (S n)
  = records_at files (generateMapResultFileName i p) ++ sources files p (i + 1) n.
Proof.
  unfold sources. cbn [seq flat_map]. rewrite flat_map_shift.
  replace (i + Z.of_nat 0) with i by lia. f_equal.
  apply flat_map_ext. intros k. do 2 f_equal. lia.
Qed.

(** The reading loop when every file opens: the records of the files,
    in the order of the map task ids, after those already read. *)
Lemma readLoop_done (response : HeartbeatResponse) (w : World) :
  forall (n : nat) (i : Z) (kva : list KeyValue),
    (forall k, (k < n)%nat ->
               exists file,
                 lookup_path (fs w)
                   (generateMapResultFileName (i + Z.of_nat k) (Id response))
                 = inl file) ->
    readLoop response n i kva w
    = Done (kva ++ sources (fs w) (Id response) i n) w.
Proof.
  induction n as [|n IH]; intros i kva Hopen.
  - unfold sources. simpl. now rewrite app_nil_r.
  - destruct (Hopen 0%nat ltac:(lia)) as [file Hfile].
    replace (i + Z.of_nat 0) with i in Hfile by lia.
    cbn [readLoop]. unfold bind, os_Open. rewrite Hfile.
    rewrite IH.
    + rewrite sources_S, decodeLoop_values, <- app_assoc.
      unfold records_at. now rewrite Hfile.
    + intros k Hk. destruct (Hopen (S k) ltac:(lia)) as [file' Hfile'].
      exists file'. rewrite <- Hfile'. do 2 f_equal. lia.
Qed.

(** The reading loop when some file does not open: the process exits
    at the first such file, the world untouched. *)
Lemma readLoop_crash (response : HeartbeatResponse) (w : World) :
  forall (n : nat) (i : Z) (kva : list KeyValue) (k : nat) (e : OpenError),
    (k < n)%nat ->
    lookup_path (fs w) (generateMapResultFileName (i + Z.of_nat k) (Id response))
    = inr e ->
    exists j,
      (j <= k)%nat /\
      readLoop response n i kva w
      = Crashed (LogFatal ("cannot open " +:+
                           generateMapResultFileName (i + Z.of_nat j) (Id response))) w.
Proof.
  induction n as [|n IH]; intros i kva k e Hk Hbad; [lia|].
  cbn [readLoop]. unfold bind, os_Open.
  destruct (lookup_path (fs w) (generateMapResultFileName i (Id response)))
    as [file|e'] eqn:Hhere.
  - destruct k as [|k].
    + replace (i + Z.of_nat 0) with i in Hbad by lia. congruence.
    + destruct (IH (i + 1) (decodeLoop (NewDecoder file) kva) k e ltac:(lia))
        as (j & Hj & Hrun).
      { rewrite <- Hbad. do 2 f_equal. lia. }
      exists (S j). split; [lia|]. rewrite Hrun. do 4 f_equal. lia.
  - exists 0%nat. split; [lia|]. unfold fatal. do 4 f_equal. lia.
Qed.

Lemma values_for_cons (key : string) (kv : KeyValue) (kva : list KeyValue) :
  values_for key (kv :: kva)
  = if decide (Key kv = key) then Value kv :: values_for key kva
    else values_for key kva.
Proof.
  unfold values_for. rewrite filter_cons. now destruct (decide (Key kv = key)).
Qed.

Lemma values_for_nil_iff (key : string) (kva : list KeyValue) :
  values_for key kva = [] <-> ~ exists kv, kv ∈ kva /\ Key kv = key.
Proof.
  induction kva as [|kv kva IH].
  - split; [|reflexivity]. intros _ (kv & Hin & _). inversion Hin.
  - rewrite values_for_cons. destruct (decide (Key kv = key)) as [Heq|Hne].
    + split; [discriminate|]. intros Hno. exfalso. apply Hno.
      exists kv. split; [left | exact Heq].
    + rewrite IH. split; intros Hno (kv' & Hin & Hkey); apply Hno.
      * apply elem_of_cons in Hin as [->|Hin]; [contradiction|]. now exists kv'.
      * exists kv'. split; [now right | exact Hkey].
Qed.

Lemma values_for_ex (key : string) (kva : list KeyValue) :
  values_for key kva <> [] -> exists kv, kv ∈ kva /\ Key kv = key.
Proof.
  induction kva as [|kv kva IH]; [now intros []|].
  rewrite values_for_cons. destruct (decide (Key kv = key)) as [Heq|Hne].
  - intros _. exists kv. split; [left | exact Heq].
  - intros Hvs. destruct (IH Hvs) as (kv' & Hin & Hkey).
    exists kv'. split; [now right | exact Hkey].
Qed.

Lemma group_from (kva : list KeyValue) :
  forall (m : gmap string (list string)) (key : string),
    fold_left (fun results kv =>
                 <[Key kv := default [] (results !! Key kv) ++ [Value kv]]> results)
              kva m !! key
    = match values_for key kva with
      | [] => m !! key
      | values => Some (default [] (m !! key) ++ values)
      end.
Proof.
  induction kva as [|kv kva IH]; intros m key; [reflexivity|].
  cbn [fold_left]. rewrite IH, values_for_cons.
  destruct (decide (Key kv = key)) as [Heq|Hne].
  - subst key. rewrite lookup_insert_eq. cbn [default].
    destruct (values_for (Key kv) kva); [reflexivity|].
    unfold id. now rewrite <- app_assoc.
  - now rewrite lookup_insert_ne by exact Hne.
Qed.

(** The map [results] holds, for every key of [kva], the values of
    that key in the order of [kva], and nothing else. *)
Lemma group_lookup (kva : list KeyValue) (key : string) :
  group kva !! key
  = match values_for key kva with
    | [] => None
    | values => Some values
    end.
Proof. unfold group. rewrite group_from, lookup_empty. reflexivity. Qed.

Lemma group_Some (kva : list KeyValue) (key : string) (values : list string) :
  group kva !! key = Some values <->
  values = values_for key kva /\ exists kv, kv ∈ kva /\ Key kv = key.
Proof.
  rewrite group_lookup.
  destruct (values_for key kva) as [|v vs] eqn:Hvs.
  - apply values_for_nil_iff in Hvs. split; [discriminate|]. now intros [_ Hex].
  - split.
    + intros [= <-]. split; [reflexivity|].
      apply values_for_ex. now rewrite Hvs.
    + now intros [-> _].
Qed.

Lemma reduceLoop_from (entries : list (string * list string)) :
  forall (buf : string) (w : World),
    foldM (fun buf entry =>
             emit (EvReduceF entry.1 entry.2) ;;
             ret (buf +:+ line entry.1 entry.2)) entries buf w
    = Done (buf +:+ lines entries)
           (with_trace w (trace w ++ map (fun entry => EvReduceF entry.1 entry.2) entries)).
Proof.
  induction entries as [|entry entries IH]; intros buf w.
  - simpl. now rewrite string_app_nil_r, app_nil_r, with_trace_same.
  - simpl. rewrite bind_bind, bind_emit, bind_ret, IH.
    rewrite string_app_assoc. unfold with_trace. simpl.
    now rewrite <- app_assoc.
Qed.

Lemma reduceLoop_run (results : gmap string (list string)) (w : World) :
  reduceLoop results w
  = Done (lines (rangeOrder w results))
         (with_trace w (trace w ++ map (fun entry => EvReduceF entry.1 entry.2)
                                       (rangeOrder w results))).
Proof. unfold reduceLoop. now rewrite reduceLoop_from. Qed.

Ltac split_extra :=
  repeat split; repeat (first [constructor 1 | constructor 2; [auto|]]).

(** What a call leaves behind, however it ends: the files as they
    were, and a history longer by the call and its error message at
    most. *)
Lemma call_world (rpcName : string) (args : RpcArgs) (reply : Body) (w : World) :
  exists extra,
    fs (world_of (call rpcName args reply w)) = fs w /\
    unwritable (world_of (call rpcName args reply w)) = unwritable w /\
    trace (world_of (call rpcName args reply w)) = trace w ++ extra /\
    Forall (fun e => e = EvCall rpcName args \/ e = EvPrintln) extra.
Proof.
  unfold call, bind, DialHTTP.
  destruct (coordinator w) as [|[| |body] rest].
  - exists []. simpl. rewrite app_nil_r. split_extra.
  - exists []. simpl. rewrite app_nil_r. split_extra.
  - exists [EvCall rpcName args; EvPrintln]. simpl.
    rewrite <- app_assoc. split_extra.
  - destruct body as [r|], reply as [r'|]; simpl.
    + exists [EvCall rpcName args]. split_extra.
    + exists [EvCall rpcName args; EvPrintln]. simpl.
      rewrite <- app_assoc. split_extra.
    + exists [EvCall rpcName args; EvPrintln]. simpl.
      rewrite <- app_assoc. split_extra.
    + exists [EvCall rpcName args]. split_extra.
Qed.

Lemma doReport_world (id : Z) (phase : SchedulePhase) (w : World) :
  exists extra,
    fs (world_of (doReport id phase w)) = fs w /\
    unwritable (world_of (doReport id phase w)) = unwritable w /\
    trace (world_of (doReport id phase w)) = trace w ++ extra /\
    Forall (fun e => e = EvCall "Coordinator.Report" (ReportRequest id phase)
                     \/ e = EvPrintln) extra.
Proof.
  destruct (call_world "Coordinator.Report" (ReportRequest id phase) ReportBody w)
    as (extra & Hfs & Hro & Htr & Hall).
  exists extra. unfold doReport, bind.
  destruct (call "Coordinator.Report" (ReportRequest id phase) ReportBody w);
    simpl in *; auto.
Qed.

(** The reduce executor when every intermediate file opens: it reads
    them all, calls the callback on the entries of [results] in the
    order of [range], and goes on to commit and to report. *)
Lemma doReduceTask_run (response : HeartbeatResponse) (w : World) :
  (forall i, 0 <= i < NMap response ->
             exists file,
               lookup_path (fs w) (generateMapResultFileName i (Id response))
               = inl file) ->
  let kva := sources (fs w) (Id response) 0 (Z.to_nat (NMap response)) in
  let w1 := with_trace w (trace w ++ [EvTask ReducePhase (Id response)]) in
  let entries := rangeOrder w1 (group kva) in
  doReduceTask response w
  = (atomicWriteFile (generateReduceResultFileName (Id response)) (lines entries) ;;
     doReport (Id response) ReducePhase)
      (with_trace w (trace w ++ EvTask ReducePhase (Id response)
                             :: map (fun entry => EvReduceF entry.1 entry.2) entries)).
Proof.
  intros Hopen kva w1 entries.
  unfold doReduceTask. rewrite bind_emit. fold w1.
  erewrite bind_Done; cycle 1.
  { apply readLoop_done. intros k Hk. apply Hopen. lia. }
  simpl app. change (fs w1) with (fs w). fold kva.
  erewrite bind_Done by apply reduceLoop_run.
  fold entries. unfold w1, with_trace. simpl.
  now rewrite <- app_assoc.
Qed.

Lemma doReport_served (id : Z) (phase : SchedulePhase) (w : World) (rest : list Answer) :
  coordinator w = Served ReportBody :: rest ->
  doReport id phase w
  = Done tt (with_trace (with_coordinator w rest)
                        (trace w ++ [EvCall "Coordinator.Report" (ReportRequest id phase)])).
Proof.
  intros Hc. unfold doReport, call, bind, DialHTTP. rewrite Hc. reflexivity.
Qed.

Lemma flat_map_none {A B} (f : A -> list B) (l : list A) :
  Forall (fun x => f x = []) l -> flat_map f l = [].
Proof.
  induction 1 as [|x l Hx _ IH]; simpl; [reflexivity | now rewrite Hx, IH].
Qed.

Lemma calls_of_app (t1 t2 : list Event) :
  calls_of (t1 ++ t2) = calls_of t1 ++ calls_of t2.
Proof. apply flat_map_app. Qed.

Lemma commits_of_app (t1 t2 : list Event) :
  commits_of (t1 ++ t2) = commits_of t1 ++ commits_of t2.
Proof. apply flat_map_app. Qed.

Lemma reports_of_app (t1 t2 : list Event) :
  reports_of (t1 ++ t2) = reports_of t1 ++ reports_of t2.
Proof. apply flat_map_app. Qed.

Lemma commits_of_task (phase : SchedulePhase) (id : Z) (t : list Event) :
  commits_of (EvTask phase id :: t) = commits_of t.
Proof. reflexivity. Qed.

Lemma reports_of_task (phase : SchedulePhase) (id : Z) (t : list Event) :
  reports_of (EvTask phase id :: t) = reports_of t.
Proof. reflexivity. Qed.

Lemma calls_of_task (phase : SchedulePhase) (id : Z) (t : list Event) :
  calls_of (EvTask phase id :: t) = calls_of t.
Proof. reflexivity. Qed.

Lemma rpc_events_no_calls (rpcName : string) (args : RpcArgs) (extra : list Event) :
  Forall (fun e => e = EvCall rpcName args \/ e = EvPrintln) extra ->
  calls_of extra = [].
Proof.
  intros Hall. apply flat_map_none.
  eapply Forall_impl; [exact Hall|]. now intros e [-> | ->].
Qed.

Lemma rpc_events_no_commits (rpcName : string) (args : RpcArgs) (extra : list Event) :
  Forall (fun e => e = EvCall rpcName args \/ e = EvPrintln) extra ->
  commits_of extra = [].
Proof.
  intros Hall. apply flat_map_none.
  eapply Forall_impl; [exact Hall|]. now intros e [-> | ->].
Qed.

Lemma calls_of_map (entries : list (string * list string)) :
  calls_of (map (fun entry => EvReduceF entry.1 entry.2) entries) = entries.
Proof.
  induction entries as [|[key values] entries IH]; simpl; [reflexivity|].
  now rewrite IH.
Qed.

Lemma commits_of_map (entries : list (string * list string)) :
  commits_of (map (fun entry => EvReduceF entry.1 entry.2) entries) = [].
Proof.
  apply flat_map_none, List.Forall_forall. now intros e (x & <- & _)%in_map_iff.
Qed.

Lemma reports_of_map (entries : list (string * list string)) :
  reports_of (map (fun entry => EvReduceF entry.1 entry.2) entries) = [].
Proof.
  apply flat_map_none, List.Forall_forall. now intros e (x & <- & _)%in_map_iff.
Qed.

Lemma atomicWriteFile_ok {B} (path buf : string) (k : unit -> M B) (w : World) :
  path ∉ unwritable w ->
  bind (atomicWriteFile path buf) k w = k tt (publish w path buf).
Proof.
  intros Hw. unfold bind, atomicWriteFile.
  now destruct (decide (path ∈ unwritable w)).
Qed.

Lemma atomicWriteFile_refused {B} (path buf : string) (k : unit -> M B) (w : World) :
  path ∈ unwritable w ->
  bind (atomicWriteFile path buf) k w
  = Crashed (LogFatal ("cannot write " +:+ path)) w.
Proof.
  intros Hw. unfold bind, atomicWriteFile.
  now destruct (decide (path ∈ unwritable w)).
Qed.

(** The end of both executors, [atomicWriteFile(path, &buf)] and then
    [doReport(id, phase)], when the path can be written: the file
    holds the buffer, and the history grows by that one commit and by
    what the report adds. *)
Lemma commit_then_report (path buf : string) (id : Z) (phase : SchedulePhase)
      (w : World) :
  path ∉ unwritable w ->
  let o := (atomicWriteFile path buf ;; doReport id phase) w in
  fs (world_of o) !! path = Some (Regular buf) /\
  exists extra,
    trace (world_of o) = trace w ++ EvCommit path buf :: extra /\
    Forall (fun e => e = EvCall "Coordinator.Report" (ReportRequest id phase)
                     \/ e = EvPrintln) extra.
Proof.
  intros Hw o. subst o. rewrite atomicWriteFile_ok by exact Hw.
  destruct (doReport_world id phase (publish w path buf))
    as (extra & Hfs & _ & Htr & Hall).
  rewrite Hfs, Htr. split.
  - unfold publish. simpl. apply lookup_insert_eq.
  - exists extra. split; [|exact Hall].
    unfold publish. simpl. now rewrite <- app_assoc.
Qed.

(** The same end, whether or not the path can be written: no call of
    the reduce callback is added. *)
Lemma commit_then_report_calls (path buf : string) (id : Z) (phase : SchedulePhase)
      (w : World) :
  calls_of (trace (world_of ((atomicWriteFile path buf ;; doReport id phase) w)))
  = calls_of (trace w).
Proof.
  destruct (decide (path ∈ unwritable w)) as [Hin|Hout].
  { now rewrite atomicWriteFile_refused. }
  rewrite atomicWriteFile_ok by exact Hout.
  destruct (doReport_world id phase (publish w path buf))
    as (extra & _ & _ & Htr & Hall).
  rewrite Htr. unfold publish. simpl trace.
  rewrite !calls_of_app, (rpc_events_no_calls _ _ _ Hall).
  change (calls_of [EvCommit path buf]) with (@nil (string * list string)).
  now rewrite !app_nil_r.
Qed.

Lemma sources_from_0 (files : gmap string node) (p : Z) (n : nat) :
  sources files p 0 n
  = flat_map (fun i => records_at files (generateMapResultFileName (Z.of_nat i) p))
             (seq 0 n).
Proof. reflexivity. Qed.

(** The run time visits every entry of a map once. *)
Hypothesis rangeOrder_perm :
  forall (w : World) (m : gmap string (list string)),
    rangeOrder w m ≡ₚ map_to_list m.

(** The entries [range] yields for [results]: one for every key of
    [kva], with the values of that key in the order of [kva]. *)
Lemma range_entries (w : World) (kva : list KeyValue) :
  let entries := rangeOrder w (group kva) in
  NoDup entries.*1 /\
  (forall key, key ∈ entries.*1 <-> exists kv, kv ∈ kva /\ Key kv = key) /\
  (forall key values, (key, values) ∈ entries -> values = values_for key kva).
Proof.
  intros entries. subst entries.
  split; [|split].
  - rewrite rangeOrder_perm. apply NoDup_fst_map_to_list.
  - intros key. rewrite rangeOrder_perm, list_elem_of_fmap. split.
    + intros ([key' values] & -> & Hin). simpl.
      apply elem_of_map_to_list, group_Some in Hin. apply Hin.
    + intros Hex. exists (key, values_for key kva). split; [reflexivity|].
      apply elem_of_map_to_list, group_Some. split; [reflexivity | exact Hex].
  - intros key values Hin. rewrite rangeOrder_perm in Hin.
    apply elem_of_map_to_list, group_Some in Hin. apply Hin.
Qed.

(** C5: when a reduce task's intermediate files all open and its output
    path can be written, the output file committed for the partition is
    the text of one line [key output] (the key, a space, the callback's
    output, a line feed) per entry, where the entries have distinct
    keys, their keys are exactly the keys of the records read from the
    [NMap] intermediate files, and each entry carries the values of its
    key; it is the task's only commit. *)
Theorem reduce_output_one_line_per_key (response : HeartbeatResponse) (w : World) :
  (forall i, 0 <= i < NMap response ->
             exists file,
               lookup_path (fs w) (generateMapResultFileName i (Id response))
               = inl file) ->
  generateReduceResultFileName (Id response) ∉ unwritable w ->
  let kva := sources (fs w) (Id response) 0 (Z.to_nat (NMap response)) in
  let after := world_of (doReduceTask response w) in
  exists entries,
    fs after !! generateReduceResultFileName (Id response)
    = Some (Regular (lines entries)) /\
    commits_of (trace after)
    = commits_of (trace w)
        ++ [(generateReduceResultFileName (Id response), lines entries)] /\
    lines entries
    = foldr (fun entry rest =>
               (entry.1 +:+ " " +:+ reduceF entry.1 entry.2 +:+ newline) +:+ rest)
            EmptyString entries /\
    NoDup entries.*1 /\
    (forall key, key ∈ entries.*1 <-> exists kv, kv ∈ kva /\ Key kv = key) /\
    (forall key values, (key, values) ∈ entries -> values = values_for key kva).
Proof.
  intros Hopen Hw kva after. subst after.
  rewrite (doReduceTask_run response w Hopen). fold kva.
  set (w1 := with_trace w (trace w ++ [EvTask ReducePhase (Id response)])).
  set (entries := rangeOrder w1 (group kva)).
  exists entries.
  match goal with |- context [world_of (?run ?w')] => set (w2 := w') end.
  destruct (commit_then_report (generateReduceResultFileName (Id response))
              (lines entries) (Id response) ReducePhase w2 Hw)
    as (Hfile & extra & Htr & Hall).
  split; [exact Hfile|]. split; [|split; [reflexivity|apply range_entries]].
  rewrite Htr. unfold w2. simpl trace.
  change (EvCommit ?p ?b :: extra) with ([EvCommit p b] ++ extra).
  rewrite !commits_of_app, commits_of_task, commits_of_map,
    (rpc_events_no_commits _ _ _ Hall).
  simpl. now rewrite !app_nil_r.
Qed.

(** C6: when a reduce task's intermediate files all open, the reduce
    callback is called once for every key of the records read, and for
    no other key, with the values of that key in the order in which they
    stand in the concatenation of the files' records taken in ascending
    order of the map task id. *)
Theorem reduce_callback_values_in_source_order
        (response : HeartbeatResponse) (w : World) :
  (forall i, 0 <= i < NMap response ->
             exists file,
               lookup_path (fs w) (generateMapResultFileName i (Id response))
               = inl file) ->
  let kva :=
    flat_map (fun i => records_at (fs w)
                         (generateMapResultFileName (Z.of_nat i) (Id response)))
             (seq 0 (Z.to_nat (NMap response))) in
  exists entries,
    calls_of (trace (world_of (doReduceTask response w)))
    = calls_of (trace w) ++ entries /\
    NoDup entries.*1 /\
    (forall key, key ∈ entries.*1 <-> exists kv, kv ∈ kva /\ Key kv = key) /\
    (forall key values,
        (key, values) ∈ entries ->
        values = map Value (filter (fun kv => Key kv = key) kva)).
Proof.
  intros Hopen kva. subst kva. rewrite <- sources_from_0.
  rewrite (doReduceTask_run response w Hopen).
  set (kva := sources (fs w) (Id response) 0 (Z.to_nat (NMap response))).
  set (w1 := with_trace w (trace w ++ [EvTask ReducePhase (Id response)])).
  set (entries := rangeOrder w1 (group kva)).
  exists entries. split; [|apply range_entries].
  rewrite commit_then_report_calls. simpl trace.
  now rewrite calls_of_app, calls_of_task, calls_of_map.
Qed.

(** The reduce executor when some intermediate file does not open,
    for whatever reason: the process exits at the first such file,
    having done nothing but enter the task. *)
Lemma doReduceTask_open_error (response : HeartbeatResponse) (w : World)
      (i : Z) (e : OpenError) :
  0 <= i < NMap response ->
  lookup_path (fs w) (generateMapResultFileName i (Id response)) = inr e ->
  exists j,
    0 <= j <= i /\
    doReduceTask response w
    = Crashed (LogFatal ("cannot open " +:+
                         generateMapResultFileName j (Id response)))
              (with_trace w (trace w ++ [EvTask ReducePhase (Id response)])).
Proof.
  intros Hi Hbad.
  set (w1 := with_trace w (trace w ++ [EvTask ReducePhase (Id response)])).
  destruct (readLoop_crash response w1 (Z.to_nat (NMap response)) 0 []
              (Z.to_nat i) e ltac:(lia)) as (j & Hj & Hrun).
  { simpl fs. rewrite <- Hbad. do 2 f_equal. lia. }
  exists (Z.of_nat j). split; [lia|].
  unfold doReduceTask. rewrite bind_emit. fold w1.
  now apply bind_Crashed.
Qed.

Lemma entered_only (w : World) (phase : SchedulePhase) (id : Z) :
  let w' := with_trace w (trace w ++ [EvTask phase id]) in
  fs w' = fs w /\
  coordinator w' = coordinator w /\
  commits_of (trace w') = commits_of (trace w) /\
  reports_of (trace w') = reports_of (trace w) /\
  calls_of (trace w') = calls_of (trace w).
Proof.
  simpl. rewrite commits_of_app, reports_of_app, calls_of_app. simpl.
  now rewrite !app_nil_r.
Qed.

(** C1, as the code has it: if the intermediate file of some map task
    [i] for the partition does not exist when the reduce executor comes
    to open it, the worker exits through [log.Fatalf] at the first file
    it cannot open; it calls no callback, commits no output file and
    sends no report. *)
Theorem reduce_missing_file_is_fatal
        (response : HeartbeatResponse) (w : World) (i : Z) :
  0 <= i < NMap response ->
  fs w !! generateMapResultFileName i (Id response) = None ->
  exists j w',
    0 <= j <= i /\
    doReduceTask response w
    = Crashed (LogFatal ("cannot open " +:+
                         generateMapResultFileName j (Id response))) w' /\
    fs w' = fs w /\
    coordinator w' = coordinator w /\
    commits_of (trace w') = commits_of (trace w) /\
    reports_of (trace w') = reports_of (trace w) /\
    calls_of (trace w') = calls_of (trace w).
Proof.
  intros Hi Hmissing.
  destruct (doReduceTask_open_error response w i ENOENT Hi) as (j & Hj & Hrun).
  { unfold lookup_path. now rewrite Hmissing. }
  exists j. eexists. split; [exact Hj|]. split; [exact Hrun|].
  apply entered_only.
Qed.

Lemma records_in_sources (files : gmap string node) (p i : Z) (n : nat) (kv : KeyValue) :
  0 <= i < Z.of_nat n ->
  kv ∈ records_at files (generateMapResultFileName i p) ->
  kv ∈ sources files p 0 n.
Proof.
  intros Hi Hin. unfold sources. apply list_elem_of_In, in_flat_map.
  exists (Z.to_nat i). split.
  - apply in_seq. lia.
  - apply list_elem_of_In. now replace (0 + Z.of_nat (Z.to_nat i)) with i by lia.
Qed.

(** C7, as the code has it.  An error of [os.Open] on an intermediate
    file, of whatever kind, is fatal: the worker exits having called no
    callback, committed nothing and reported nothing.  An error of
    [Decode] on an opened file, of whatever kind (end of file, malformed
    input, a failed read), only ends the reading of that file: the
    records decoded before it are kept, and the task goes on to commit
    its output file and, when the coordinator serves the call, to report
    its completion. *)
Theorem reduce_open_error_fatal_decode_error_not
        (response : HeartbeatResponse) (w : World) :
  (forall i e,
      0 <= i < NMap response ->
      lookup_path (fs w) (generateMapResultFileName i (Id response)) = inr e ->
      exists j w',
        0 <= j <= i /\
        doReduceTask response w
        = Crashed (LogFatal ("cannot open " +:+
                             generateMapResultFileName j (Id response))) w' /\
        fs w' = fs w /\
        coordinator w' = coordinator w /\
        commits_of (trace w') = commits_of (trace w) /\
        reports_of (trace w') = reports_of (trace w) /\
        calls_of (trace w') = calls_of (trace w)) /\
  (forall rest,
      (forall i, 0 <= i < NMap response ->
                 exists file,
                   lookup_path (fs w) (generateMapResultFileName i (Id response))
                   = inl file) ->
      generateReduceResultFileName (Id response) ∉ unwritable w ->
      coordinator w = Served ReportBody :: rest ->
      exists entries w',
        doReduceTask response w = Done tt w' /\
        commits_of (trace w')
        = commits_of (trace w)
            ++ [(generateReduceResultFileName (Id response), lines entries)] /\
        reports_of (trace w')
        = reports_of (trace w) ++ [(Id response, ReducePhase)] /\
        forall i file kv,
          0 <= i < NMap response ->
          lookup_path (fs w) (generateMapResultFileName i (Id response)) = inl file ->
          kv ∈ values_of (NewDecoder file) ->
          Key kv ∈ entries.*1).
Proof.
  split.
  - intros i e Hi Hbad.
    destruct (doReduceTask_open_error response w i e Hi Hbad) as (j & Hj & Hrun).
    exists j. eexists. split; [exact Hj|]. split; [exact Hrun|].
    apply entered_only.
  - intros rest Hopen Hw Hc.
    set (kva := sources (fs w) (Id response) 0 (Z.to_nat (NMap response))).
    set (w1 := with_trace w (trace w ++ [EvTask ReducePhase (Id response)])).
    set (entries := rangeOrder w1 (group kva)).
    exists entries. eexists. split; [|split; [|split]].
    + rewrite (doReduceTask_run response w Hopen).
      rewrite atomicWriteFile_ok by exact Hw.
      erewrite doReport_served by exact Hc. reflexivity.
    + simpl trace.
      rewrite !commits_of_app, commits_of_task, commits_of_map. simpl.
      now rewrite !app_nil_r.
    + simpl trace.
      rewrite !reports_of_app, reports_of_task, reports_of_map. simpl.
      now rewrite !app_nil_r.
    + intros i file kv Hi Hfile Hkv.
      apply (range_entries w1 kva). exists kv. split; [|reflexivity].
      apply (records_in_sources _ _ i); [lia|].
      unfold records_at. now rewrite Hfile.
Qed.

(** *** The map executor *)

Lemma make_ok (n : Z) (w : World) :
  0 <= n -> make n w = Done (replicate (Z.to_nat n) []) w.
Proof.
  intros Hn. unfold make. now destruct (Z.ltb_spec n 0); [lia|].
Qed.

Lemma buckets_nil (nReduce : Z) :
  buckets nReduce [] = replicate (Z.to_nat nReduce) [].
Proof.
  unfold buckets. generalize 0%nat.
  induction (Z.to_nat nReduce) as [|n IH]; intros start; simpl;
    [reflexivity | now rewrite IH].
Qed.

Lemma buckets_lookup (nReduce : Z) (kva : list KeyValue) (i : nat) :
  (i < Z.to_nat nReduce)%nat ->
  buckets nReduce kva !! i = Some (bucket nReduce kva i).
Proof.
  intros Hi. unfold buckets.
  change (map ?f ?l) with (f <$> l).
  rewrite list_lookup_fmap, lookup_seq_lt by exact Hi. reflexivity.
Qed.

Lemma buckets_length (nReduce : Z) (kva : list KeyValue) :
  length (buckets nReduce kva) = Z.to_nat nReduce.
Proof. unfold buckets. now rewrite length_map, length_seq. Qed.

Lemma bucket_snoc (nReduce : Z) (kva : list KeyValue) (kv : KeyValue) (i : nat) :
  bucket nReduce (kva ++ [kv]) i
  = if decide (partition (Key kv) nReduce = Z.of_nat i)
    then bucket nReduce kva i ++ [kv]
    else bucket nReduce kva i.
Proof.
  unfold bucket. rewrite filter_app, filter_cons, filter_nil.
  destruct (decide (partition (Key kv) nReduce = Z.of_nat i));
    [reflexivity | apply app_nil_r].
Qed.

(** One round of the routing loop appends the record to its bucket. *)
Lemma route_one (nReduce : Z) (acc : list KeyValue) (kv : KeyValue) (w : World) :
  1 <= nReduce ->
  route nReduce (buckets nReduce acc) kv w
  = Done (buckets nReduce (acc ++ [kv])) w.
Proof.
  intros HN. unfold route, index.
  destruct (Z.eqb_spec nReduce 0) as [|_]; [lia|].
  fold (partition (Key kv) nReduce).
  pose proof (partition_range (Key kv) nReduce HN) as Hp.
  destruct (Z.ltb_spec (partition (Key kv) nReduce) 0) as [|_]; [lia|].
  rewrite buckets_lookup by lia. unfold ret. f_equal.
  apply list_eq. intros j.
  destruct (decide (j < Z.to_nat nReduce)%nat) as [Hj|Hj].
  - rewrite (buckets_lookup _ _ j Hj), bucket_snoc.
    destruct (decide (partition (Key kv) nReduce = Z.of_nat j)) as [Heq|Hne].
    + replace (Z.to_nat (partition (Key kv) nReduce)) with j by lia.
      apply list_lookup_insert_eq. now rewrite buckets_length.
    + rewrite list_lookup_insert_ne by lia. now apply buckets_lookup.
  - rewrite !lookup_ge_None_2; [reflexivity | |].
    + rewrite buckets_length. lia.
    + rewrite length_insert, buckets_length. lia.
Qed.

(** The routing loop leaves in every bucket the records routed to it,
    in the order of [kva]. *)
Lemma route_all (nReduce : Z) (w : World) :
  1 <= nReduce ->
  forall (kva acc : list KeyValue),
    foldM (route nReduce) kva (buckets nReduce acc) w
    = Done (buckets nReduce (acc ++ kva)) w.
Proof.
  intros HN. induction kva as [|kv kva IH]; intros acc.
  - simpl. now rewrite app_nil_r.
  - cbn [foldM]. erewrite bind_Done by (now apply route_one).
    rewrite IH, <- app_assoc. reflexivity.
Qed.

Lemma encodeLoop_from (records : list KeyValue) :
  (forall kv, kv ∈ records -> is_Some (Encode kv)) ->
  forall (buf : string) (w : World),
    foldM (fun buf kv =>
             match Encode kv with
             | Some bytes => ret (buf +:+ bytes)
             | None => fatal ("cannot encode json " +:+ Key kv)
             end) records buf w
    = Done (buf +:+ encoded records) w.
Proof.
  induction records as [|kv records IH]; intros Hok buf w.
  - simpl. now rewrite string_app_nil_r.
  - cbn [foldM]. destruct (Hok kv ltac:(left)) as [bytes Hbytes].
    unfold encoded. cbn [foldr]. fold (encoded records).
    rewrite Hbytes, bind_ret, IH.
    + simpl. now rewrite string_app_assoc.
    + intros kv' Hin. apply Hok. now right.
Qed.

Lemma goroutine_ok (response : HeartbeatResponse) (i : nat)
      (records : list KeyValue) (w : World) :
  (forall kv, kv ∈ records -> is_Some (Encode kv)) ->
  generateMapResultFileName (Id response) (Z.of_nat i) ∉ unwritable w ->
  goroutine response i records w
  = Done tt (publish w (generateMapResultFileName (Id response) (Z.of_nat i))
                     (encoded records)).
Proof.
  intros Hok Hw. unfold goroutine, encodeLoop.
  erewrite bind_Done by (now apply encodeLoop_from).
  simpl. unfold atomicWriteFile.
  now destruct (decide (_ ∈ unwritable w)).
Qed.

Lemma bucket_subset (nReduce : Z) (kva : list KeyValue) (i : nat) (kv : KeyValue) :
  kv ∈ bucket nReduce kva i -> kv ∈ kva.
Proof. unfold bucket. now intros [_ Hin]%list_elem_of_filter. Qed.

(** The goroutines of [order], run one after the other. *)
Lemma goroutines_run (response : HeartbeatResponse) (kva : list KeyValue) :
  (forall kv, kv ∈ kva -> is_Some (Encode kv)) ->
  forall (order : list nat) (w : World),
    (forall i, i ∈ order -> (i < Z.to_nat (NReduce response))%nat) ->
    (forall i, i ∈ order ->
               generateMapResultFileName (Id response) (Z.of_nat i) ∉ unwritable w) ->
    foldM (fun _ i =>
             match buckets (NReduce response) kva !! i with
             | Some intermediate => goroutine response i intermediate
             | None => ret tt
             end) order tt w
    = Done tt (published response kva order w).
Proof.
  intros Hok. induction order as [|i order IH]; intros w Hlt Hw; [reflexivity|].
  cbn [foldM]. rewrite buckets_lookup by (apply Hlt; left).
  erewrite bind_Done; cycle 1.
  { apply goroutine_ok; [|apply Hw; left].
    intros kv Hin. eapply Hok, bucket_subset, Hin. }
  rewrite IH; [reflexivity | |].
  - intros j Hj. apply Hlt. now right.
  - intros j Hj. apply Hw. now right.
Qed.

Lemma published_trace (response : HeartbeatResponse) (kva : list KeyValue) :
  forall (order : list nat) (w : World),
    trace (published response kva order w)
    = trace w ++ map (fun i =>
                        EvCommit (generateMapResultFileName (Id response) (Z.of_nat i))
                                 (encoded (bucket (NReduce response) kva i)))
                     order.
Proof.
  induction order as [|i order IH]; intros w.
  - simpl. now rewrite app_nil_r.
  - unfold published in *. cbn [fold_left map]. rewrite IH.
    unfold publish. simpl. now rewrite <- app_assoc.
Qed.

Lemma published_unwritable (response : HeartbeatResponse) (kva : list KeyValue) :
  forall (order : list nat) (w : World),
    unwritable (published response kva order w) = unwritable w.
Proof.
  induction order as [|i order IH]; intros w; [reflexivity|].
  unfold published in *. cbn [fold_left]. now rewrite IH.
Qed.

Lemma published_coordinator (response : HeartbeatResponse) (kva : list KeyValue) :
  forall (order : list nat) (w : World),
    coordinator (published response kva order w) = coordinator w.
Proof.
  induction order as [|i order IH]; intros w; [reflexivity|].
  unfold published in *. cbn [fold_left]. now rewrite IH.
Qed.

Lemma published_same_files (response : HeartbeatResponse) (kva : list KeyValue) :
  forall (order : list nat) (w w' : World),
    fs w = fs w' ->
    fs (published response kva order w) = fs (published response kva order w').
Proof.
  induction order as [|i order IH]; intros w w' Hfs; [exact Hfs|].
  unfold published in *. cbn [fold_left]. apply IH.
  unfold publish. simpl. now rewrite Hfs.
Qed.

(** A path that names no bucket of [order] keeps what it held. *)
Lemma published_other (response : HeartbeatResponse) (kva : list KeyValue)
      (path : string) :
  forall (order : list nat) (w : World),
    (forall i, i ∈ order ->
               generateMapResultFileName (Id response) (Z.of_nat i) <> path) ->
    fs (published response kva order w) !! path = fs w !! path.
Proof.
  induction order as [|i order IH]; intros w Hother; [reflexivity|].
  unfold published in *. cbn [fold_left]. rewrite IH.
  - unfold publish. simpl. apply lookup_insert_ne, Hother. left.
  - intros j Hj. apply Hother. now right.
Qed.

(** A path that names a bucket of [order] holds a regular file. *)
Lemma published_regular (response : HeartbeatResponse) (kva : list KeyValue)
      (path : string) :
  forall (order : list nat) (w : World),
    (exists payload, fs w !! path = Some (Regular payload)) \/
    (exists i, i ∈ order /\
               generateMapResultFileName (Id response) (Z.of_nat i) = path) ->
    exists payload,
      fs (published response kva order w) !! path = Some (Regular payload).
Proof.
  induction order as [|i order IH]; intros w Hfrom.
  - destruct Hfrom as [Hhere | (i & Hin & _)]; [exact Hhere | inversion Hin].
  - unfold published in *. cbn [fold_left]. apply IH.
    destruct (decide (generateMapResultFileName (Id response) (Z.of_nat i) = path))
      as [Heq|Hne].
    + left. eexists. unfold publish. simpl. rewrite Heq. apply lookup_insert_eq.
    + destruct Hfrom as [(payload & Hhere) | (j & Hin & Hj)].
      * left. exists payload. unfold publish. simpl.
        now rewrite lookup_insert_ne.
      * right. exists j. split; [|exact Hj].
        apply elem_of_cons in Hin as [->|Hin]; [contradiction | exact Hin].
Qed.

(** When the buckets of [order] have files of their own, each file
    holds the encoding of its bucket. *)
Lemma published_own (response : HeartbeatResponse) (kva : list KeyValue) :
  forall (order : list nat) (w : World) (i : nat),
    NoDup order ->
    (forall j k, j ∈ order -> k ∈ order ->
                 generateMapResultFileName (Id response) (Z.of_nat j)
                 = generateMapResultFileName (Id response) (Z.of_nat k) ->
                 j = k) ->
    i ∈ order ->
    fs (published response kva order w)
      !! generateMapResultFileName (Id response) (Z.of_nat i)
    = Some (Regular (encoded (bucket (NReduce response) kva i))).
Proof.
  induction order as [|j order IH]; intros w i Hnd Hinj Hin; [inversion Hin|].
  apply NoDup_cons in Hnd as [Hfresh Hnd].
  destruct (decide (i ∈ order)) as [Hlater|Hnot].
  - unfold published in *. cbn [fold_left]. apply IH; [exact Hnd | | exact Hlater].
    intros a b Ha Hb. apply Hinj; now right.
  - apply elem_of_cons in Hin as [->|Hin]; [|contradiction].
    change (published response kva (j :: order) w)
      with (published response kva order
              (publish w (generateMapResultFileName (Id response) (Z.of_nat j))
                       (encoded (bucket (NReduce response) kva j)))).
    rewrite published_other.
    + unfold publish. simpl. apply lookup_insert_eq.
    + intros k Hk Hsame. apply Hfresh.
      rewrite <- (Hinj k j); [exact Hk | now right | left | exact Hsame].
Qed.

(** The run time lets every goroutine reach its commit, in some
    order. *)
Hypothesis goOrder_perm :
  forall (w : World) (n : nat), goOrder w n ≡ₚ seq 0 n.

(** The map executor on a readable input whose records can all be
    encoded and whose intermediate paths can all be written: it commits
    the buckets in the order of the goroutines and goes on to report. *)
Lemma doMapTask_run (response : HeartbeatResponse) (w : World) (content : string) :
  fs w !! FilePath response = Some (Regular content) ->
  1 <= NReduce response ->
  (forall kv, kv ∈ mapF (FilePath response) content -> is_Some (Encode kv)) ->
  (forall i, 0 <= i < NReduce response ->
             generateMapResultFileName (Id response) i ∉ unwritable w) ->
  let kva := mapF (FilePath response) content in
  let w1 := with_trace w (trace w ++ [EvTask MapPhase (Id response);
                                      EvMapF (FilePath response) content]) in
  let order := goOrder w1 (Z.to_nat (NReduce response)) in
  doMapTask response w
  = doReport (Id response) MapPhase (published response kva order w1).
Proof.
  intros Hfile HN Hok Hw kva w1 order.
  unfold doMapTask. rewrite bind_emit.
  erewrite bind_Done; cycle 1.
  { unfold os_Open, lookup_path. simpl fs. rewrite Hfile. reflexivity. }
  unfold ReadAll. cbn [faulty data]. rewrite bind_emit.
  erewrite bind_Done by (apply make_ok; lia).
  rewrite <- buckets_nil.
  erewrite bind_Done by (now apply (route_all _ _ HN)).
  cbn [app].
  match goal with |- context [bind _ _ ?w'] => replace w' with w1 end.
  2:{ unfold w1, with_trace. simpl. now rewrite <- app_assoc. }
  erewrite bind_Done; [reflexivity|].
  unfold fanOut. rewrite buckets_length. fold kva order.
  apply goroutines_run.
  - exact Hok.
  - intros i Hi. unfold order in Hi. rewrite goOrder_perm in Hi.
    apply elem_of_seq in Hi. lia.
  - intros i Hi. unfold order in Hi. rewrite goOrder_perm in Hi.
    apply elem_of_seq in Hi. apply Hw. lia.
Qed.

Lemma commits_of_commits {A} (path payload : A -> string) (l : list A) :
  commits_of (map (fun i => EvCommit (path i) (payload i)) l)
  = map (fun i => (path i, payload i)) l.
Proof. induction l as [|i l IH]; simpl; [reflexivity | now rewrite IH]. Qed.

(** What the map executor leaves behind under the conditions of
    [doMapTask_run]: the files of the published world, and a history
    longer by the task's entry, the callback's call, one commit per
    bucket and what the report adds. *)
Lemma doMapTask_world (response : HeartbeatResponse) (w : World) (content : string) :
  fs w !! FilePath response = Some (Regular content) ->
  1 <= NReduce response ->
  (forall kv, kv ∈ mapF (FilePath response) content -> is_Some (Encode kv)) ->
  (forall i, 0 <= i < NReduce response ->
             generateMapResultFileName (Id response) i ∉ unwritable w) ->
  let kva := mapF (FilePath response) content in
  let after := world_of (doMapTask response w) in
  exists order,
    order ≡ₚ seq 0 (Z.to_nat (NReduce response)) /\
    fs after = fs (published response kva order w) /\
    commits_of (trace after)
    = commits_of (trace w)
        ++ map (fun i => (generateMapResultFileName (Id response) (Z.of_nat i),
                          encoded (bucket (NReduce response) kva i))) order.
Proof.
  intros Hfile HN Hok Hw kva after. subst after.
  rewrite (doMapTask_run response w content Hfile HN Hok Hw). fold kva.
  set (w1 := with_trace w (trace w ++ [EvTask MapPhase (Id response);
                                       EvMapF (FilePath response) content])).
  set (order := goOrder w1 (Z.to_nat (NReduce response))).
  exists order. split; [apply goOrder_perm|].
  destruct (doReport_world (Id response) MapPhase (published response kva order w1))
    as (extra & Hfs & _ & Htr & Hall).
  rewrite Hfs, Htr. split.
  - now apply published_same_files.
  - rewrite published_trace, !commits_of_app, commits_of_commits,
      (rpc_events_no_commits _ _ _ Hall).
    simpl. rewrite commits_of_app. simpl. now rewrite !app_nil_r.
Qed.

Lemma bucket_cons (nReduce : Z) (kv : KeyValue) (kva : list KeyValue) (i : nat) :
  bucket nReduce (kv :: kva) i
  = if decide (partition (Key kv) nReduce = Z.of_nat i)
    then kv :: bucket nReduce kva i
    else bucket nReduce kva i.
Proof.
  unfold bucket. rewrite filter_cons.
  now destruct (decide (partition (Key kv) nReduce = Z.of_nat i)).
Qed.

(** Adding a record to [kva] adds it to the bucket of its partition
    and to no other. *)
Lemma concat_buckets_cons (nReduce : Z) (kv : KeyValue) (kva : list KeyValue) :
  forall (indices : list nat),
    NoDup indices ->
    Z.to_nat (partition (Key kv) nReduce) ∈ indices ->
    0 <= partition (Key kv) nReduce ->
    concat (map (bucket nReduce (kv :: kva)) indices)
    ≡ₚ kv :: concat (map (bucket nReduce kva) indices).
Proof.
  intros indices Hnd Hin Hp.
  induction indices as [|i indices IH]; [inversion Hin|].
  apply NoDup_cons in Hnd as [Hfresh Hnd].
  cbn [map concat]. rewrite bucket_cons.
  destruct (decide (partition (Key kv) nReduce = Z.of_nat i)) as [Heq|Hne].
  - assert (map (bucket nReduce (kv :: kva)) indices
            = map (bucket nReduce kva) indices) as ->; [|reflexivity].
    apply map_ext_in. intros j Hj. rewrite bucket_cons.
    destruct (decide (partition (Key kv) nReduce = Z.of_nat j)) as [Heq'|];
      [|reflexivity].
    exfalso. apply Hfresh. replace i with j by lia. now apply list_elem_of_In.
  - apply elem_of_cons in Hin as [Hhere|Hlater]; [lia|].
    rewrite (IH Hnd Hlater). now rewrite Permutation_middle.
Qed.

(** The buckets hold the records of [kva], each once. *)
Lemma concat_buckets (nReduce : Z) (kva : list KeyValue) :
  1 <= nReduce -> concat (buckets nReduce kva) ≡ₚ kva.
Proof.
  intros HN. unfold buckets. induction kva as [|kv kva IH].
  - generalize 0%nat. induction (Z.to_nat nReduce) as [|n IHn]; intros start;
      [reflexivity | apply IHn].
  - pose proof (partition_range (Key kv) nReduce HN) as Hp.
    rewrite concat_buckets_cons, IH; [reflexivity | apply NoDup_seq | | lia].
    apply elem_of_seq. lia.
Qed.

(** C3: when a map task's input is read, its records can all be
    encoded, and the [NReduce >= 1] intermediate paths of the task are
    distinct and can be written, the files at those paths hold the
    encodings of record lists that together are the emitted records,
    each once (none lost, none duplicated), and a record is in the list
    of bucket [i] only if [i] is the partition of its key. *)
Theorem map_files_partition_the_emitted_records
        (response : HeartbeatResponse) (w : World) (content : string) :
  fs w !! FilePath response = Some (Regular content) ->
  1 <= NReduce response ->
  (forall kv, kv ∈ mapF (FilePath response) content -> is_Some (Encode kv)) ->
  (forall i, 0 <= i < NReduce response ->
             generateMapResultFileName (Id response) i ∉ unwritable w) ->
  (forall i j, 0 <= i < NReduce response -> 0 <= j < NReduce response ->
               generateMapResultFileName (Id response) i
               = generateMapResultFileName (Id response) j ->
               i = j) ->
  let kva := mapF (FilePath response) content in
  let after := world_of (doMapTask response w) in
  exists files : list (list KeyValue),
    length files = Z.to_nat (NReduce response) /\
    (forall (i : nat) records,
        files !! i = Some records ->
        fs after !! generateMapResultFileName (Id response) (Z.of_nat i)
        = Some (Regular (encoded records))) /\
    concat files ≡ₚ kva /\
    (forall (i : nat) records kv,
        files !! i = Some records ->
        kv ∈ records ->
        partition (Key kv) (NReduce response) = Z.of_nat i).
Proof.
  intros Hfile HN Hok Hw Hinj kva after.
  destruct (doMapTask_world response w content Hfile HN Hok Hw)
    as (order & Hperm & Hfs & _).
  fold kva after in Hfs.
  exists (buckets (NReduce response) kva).
  split; [apply buckets_length|]. split; [|split].
  - intros i records Hi.
    assert (i < Z.to_nat (NReduce response))%nat as Hlt.
    { rewrite <- (buckets_length (NReduce response) kva).
      eapply lookup_lt_Some, Hi. }
    rewrite buckets_lookup in Hi by exact Hlt. injection Hi as <-.
    rewrite Hfs. apply published_own.
    + rewrite Hperm. apply NoDup_seq.
    + intros j k Hj Hk Hsame. rewrite Hperm in Hj, Hk.
      apply elem_of_seq in Hj, Hk.
      apply Nat2Z.inj, Hinj; [lia | lia | exact Hsame].
    + rewrite Hperm. apply elem_of_seq. lia.
  - now apply concat_buckets.
  - intros i records kv Hi Hkv.
    assert (i < Z.to_nat (NReduce response))%nat as Hlt.
    { rewrite <- (buckets_length (NReduce response) kva).
      eapply lookup_lt_Some, Hi. }
    rewrite buckets_lookup in Hi by exact Hlt. injection Hi as <-.
    unfold bucket in Hkv. now apply list_elem_of_filter in Hkv as [Hp _].
Qed.

(** C4: when a map task's input is read, its records can all be
    encoded and the [NReduce >= 1] intermediate paths of the task can be
    written, the map executor makes exactly [NReduce] commits, one for
    every bucket index in [0, NReduce), each of the encoding of that
    bucket; after them every one of the paths holds a file.  A bucket
    without records is committed as an empty file, so a task whose
    callback emits nothing (an empty input, say) still commits
    [NReduce] files, all empty. *)
Theorem map_commits_one_file_per_bucket
        (response : HeartbeatResponse) (w : World) (content : string) :
  fs w !! FilePath response = Some (Regular content) ->
  1 <= NReduce response ->
  (forall kv, kv ∈ mapF (FilePath response) content -> is_Some (Encode kv)) ->
  (forall i, 0 <= i < NReduce response ->
             generateMapResultFileName (Id response) i ∉ unwritable w) ->
  let kva := mapF (FilePath response) content in
  let after := world_of (doMapTask response w) in
  exists order,
    order ≡ₚ seq 0 (Z.to_nat (NReduce response)) /\
    commits_of (trace after)
    = commits_of (trace w)
        ++ map (fun i => (generateMapResultFileName (Id response) (Z.of_nat i),
                          encoded (bucket (NReduce response) kva i))) order /\
    length (commits_of (trace after))
    = (length (commits_of (trace w)) + Z.to_nat (NReduce response))%nat /\
    (forall i, 0 <= i < NReduce response ->
               exists payload,
                 fs after !! generateMapResultFileName (Id response) i
                 = Some (Regular payload)) /\
    (kva = [] ->
     commits_of (trace after)
     = commits_of (trace w)
         ++ map (fun i => (generateMapResultFileName (Id response) (Z.of_nat i),
                           EmptyString)) order).
Proof.
  intros Hfile HN Hok Hw kva after.
  destruct (doMapTask_world response w content Hfile HN Hok Hw)
    as (order & Hperm & Hfs & Hcommits).
  fold kva after in Hfs, Hcommits.
  exists order. split; [exact Hperm|]. split; [exact Hcommits|].
  split; [|split].
  - rewrite Hcommits, length_app, length_map, Hperm, length_seq. reflexivity.
  - intros i Hi. rewrite Hfs. apply published_regular. right.
    exists (Z.to_nat i). split.
    + rewrite Hperm. apply elem_of_seq. lia.
    + now rewrite Z2Nat.id by lia.
  - intros Hnone. rewrite Hcommits, Hnone. reflexivity.
Qed.

(** C10: under the conditions of C3, the file of every bucket index
    [i] holds the encodings, one after the other, of the emitted records
    whose key has partition [i], in the order in which the callback
    emitted them; and that is what was committed for the bucket. *)
Theorem map_file_keeps_emission_order
        (response : HeartbeatResponse) (w : World) (content : string) (i : Z) :
  fs w !! FilePath response = Some (Regular content) ->
  1 <= NReduce response ->
  (forall kv, kv ∈ mapF (FilePath response) content -> is_Some (Encode kv)) ->
  (forall i, 0 <= i < NReduce response ->
             generateMapResultFileName (Id response) i ∉ unwritable w) ->
  (forall i j, 0 <= i < NReduce response -> 0 <= j < NReduce response ->
               generateMapResultFileName (Id response) i
               = generateMapResultFileName (Id response) j ->
               i = j) ->
  0 <= i < NReduce response ->
  let kva := mapF (FilePath response) content in
  let after := world_of (doMapTask response w) in
  let records := filter (fun kv => partition (Key kv) (NReduce response) = i) kva in
  fs after !! generateMapResultFileName (Id response) i
  = Some (Regular (encoded records)) /\
  (generateMapResultFileName (Id response) i, encoded records)
    ∈ commits_of (trace after).
Proof.
  intros Hfile HN Hok Hw Hinj Hi kva after records.
  destruct (doMapTask_world response w content Hfile HN Hok Hw)
    as (order & Hperm & Hfs & Hcommits).
  fold kva after in Hfs, Hcommits.
  assert (Z.to_nat i ∈ order) as Hin.
  { rewrite Hperm. apply elem_of_seq. lia. }
  assert (records = bucket (NReduce response) kva (Z.to_nat i)) as ->.
  { unfold records, bucket. now rewrite Z2Nat.id by lia. }
  split.
  - rewrite Hfs, <- (Z2Nat.id i) at 1 by lia. apply published_own.
    + rewrite Hperm. apply NoDup_seq.
    + intros j k Hj Hk Hsame. rewrite Hperm in Hj, Hk.
      apply elem_of_seq in Hj, Hk.
      apply Nat2Z.inj, Hinj; [lia | lia | exact Hsame].
    + exact Hin.
  - rewrite Hcommits. apply elem_of_app. right.
    apply list_elem_of_fmap. exists (Z.to_nat i).
    split; [|exact Hin]. now rewrite Z2Nat.id by lia.
Qed.

(** *** The bound on the rounds of [Worker] *)

(** Splits a run [bind m k w = Done b w'] into the run of [m] and the
    run of [k]. *)
Lemma bind_Done_inv {A B} (m : M A) (k : A -> M B) (w w' : World) (b : B) :
  bind m k w = Done b w' ->
  exists a w1, m w = Done a w1 /\ k a w1 = Done b w'.
Proof.
  unfold bind. destruct (m w) as [a w1|why w1]; [|discriminate].
  intros Hk. now exists a, w1.
Qed.

Lemma emit_coordinator (e : Event) (w w' : World) (u : unit) :
  emit e w = Done u w' -> coordinator w' = coordinator w.
Proof. now intros [= _ <-]. Qed.

Lemma foldM_coordinator {A B} (f : A -> B -> M A) :
  (forall a x w a' w', f a x w = Done a' w' -> coordinator w' = coordinator w) ->
  forall l a w a' w',
    foldM f l a w = Done a' w' -> coordinator w' = coordinator w.
Proof.
  intros Hf. induction l as [|x l IH]; intros a w a' w' Hrun.
  - now injection Hrun as _ <-.
  - cbn [foldM] in Hrun.
    apply bind_Done_inv in Hrun as (a1 & w1 & Hx & Hl).
    rewrite (IH _ _ _ _ Hl). eapply Hf, Hx.
Qed.

Lemma atomicWriteFile_coordinator (path buf : string) (w w' : World) (u : unit) :
  atomicWriteFile path buf w = Done u w' -> coordinator w' = coordinator w.
Proof.
  unfold atomicWriteFile.
  destruct (decide (path ∈ unwritable w)); [discriminate|]. now intros [= _ <-].
Qed.

Lemma call_coordinator rpcName args reply (w w' : World) (r : bool * Body) :
  call rpcName args reply w = Done r w' ->
  length (coordinator w) = S (length (coordinator w')).
Proof.
  unfold call, bind, DialHTTP.
  destruct (coordinator w) as [|[| |body] rest] eqn:Hc; try discriminate.
  - simpl. now intros [= _ <-].
  - simpl. destruct body, reply; simpl; now intros [= _ <-].
Qed.

Lemma doReport_coordinator (id : Z) (phase : SchedulePhase) (w w' : World) (u : unit) :
  doReport id phase w = Done u w' ->
  length (coordinator w) = S (length (coordinator w')).
Proof.
  unfold doReport. intros ([ok reply] & w1 & Hcall & [= _ <-])%bind_Done_inv.
  eapply call_coordinator, Hcall.
Qed.

Lemma doHeartbeat_coordinator (w w' : World) (r : HeartbeatResponse) :
  doHeartbeat w = Done r w' ->
  length (coordinator w) = S (length (coordinator w')).
Proof.
  unfold doHeartbeat. intros ([ok reply] & w1 & Hcall & [= _ <-])%bind_Done_inv.
  eapply call_coordinator, Hcall.
Qed.

Lemma goroutine_coordinator response i records (w w' : World) (u : unit) :
  goroutine response i records w = Done u w' -> coordinator w' = coordinator w.
Proof.
  unfold goroutine. intros (buf & w1 & Henc & Hwrite)%bind_Done_inv.
  rewrite (atomicWriteFile_coordinator _ _ _ _ _ Hwrite).
  unfold encodeLoop in Henc. eapply foldM_coordinator; [|exact Henc].
  intros a kv w2 a' w2'. unfold fatal, ret.
  destruct (Encode kv); [|discriminate]. now intros [= _ <-].
Qed.

Lemma doMapTask_coordinator (response : HeartbeatResponse) (w w' : World) (u : unit) :
  doMapTask response w = Done u w' ->
  length (coordinator w) = S (length (coordinator w')).
Proof.
  unfold doMapTask.
  intros (? & w1 & H1%emit_coordinator & Hrun)%bind_Done_inv.
  apply bind_Done_inv in Hrun as (found & w2 & [= <- <-] & Hrun).
  unfold fatal in Hrun.
  destruct (lookup_path (fs w1) (FilePath response)) as [file|]; [|discriminate].
  destruct (ReadAll file) as [content|]; [|discriminate].
  apply bind_Done_inv in Hrun as (? & w3 & H3%emit_coordinator & Hrun).
  apply bind_Done_inv in Hrun as (ints & w4 & H4 & Hrun).
  apply bind_Done_inv in Hrun as (ints' & w5 & H5 & Hrun).
  apply bind_Done_inv in Hrun as (? & w6 & H6 & Hrun).
  rewrite <- (doReport_coordinator _ _ _ _ _ Hrun). f_equal.
  assert (coordinator w4 = coordinator w3) as E4.
  { unfold make, panic, ret in H4.
    destruct (NReduce response <? 0); [discriminate|].
    now injection H4 as _ <-. }
  assert (coordinator w5 = coordinator w4) as E5.
  { eapply foldM_coordinator; [|exact H5]. intros a kv wa a' wa'.
    unfold route, panic, ret.
    destruct (NReduce response =? 0); [discriminate|].
    destruct (index a _); [|discriminate]. now intros [= _ <-]. }
  assert (coordinator w6 = coordinator w5) as E6.
  { unfold fanOut in H6. eapply foldM_coordinator; [|exact H6].
    intros a i wa a' wa'. cbv beta. destruct (ints' !! i).
    - apply goroutine_coordinator.
    - now intros [= _ <-]. }
  congruence.
Qed.

Lemma readLoop_coordinator (response : HeartbeatResponse) :
  forall n i kva (w w' : World) kva',
    readLoop response n i kva w = Done kva' w' -> coordinator w' = coordinator w.
Proof.
  induction n as [|n IH]; intros i kva w w' kva' Hrun.
  - now injection Hrun as _ <-.
  - cbn [readLoop] in Hrun.
    apply bind_Done_inv in Hrun as (found & w1 & [= <- <-] & Hrun).
    unfold fatal in Hrun.
    destruct (lookup_path (fs w) _) as [file|]; [|discriminate].
    eapply IH, Hrun.
Qed.

Lemma doReduceTask_coordinator (response : HeartbeatResponse) (w w' : World) (u : unit) :
  doReduceTask response w = Done u w' ->
  length (coordinator w) = S (length (coordinator w')).
Proof.
  unfold doReduceTask.
  intros (? & w1 & H1%emit_coordinator & Hrun)%bind_Done_inv.
  apply bind_Done_inv in Hrun as (kva & w2 & H2%readLoop_coordinator & Hrun).
  apply bind_Done_inv in Hrun as (buf & w3 & H3 & Hrun).
  apply bind_Done_inv in Hrun as (? & w4 & H4%atomicWriteFile_coordinator & Hrun).
  rewrite <- (doReport_coordinator _ _ _ _ _ Hrun). f_equal.
  assert (coordinator w3 = coordinator w2) as E3.
  { unfold reduceLoop in H3. eapply foldM_coordinator; [|exact H3].
    intros a entry wa a' wa'. cbv beta.
    intros (? & wb & Hb%emit_coordinator & [= _ <-])%bind_Done_inv.
    exact Hb. }
  congruence.
Qed.

(** A round that does not end the loop uses up at least one of the
    coordinator's answers. *)
Lemma round_coordinator (w w' : World) :
  round w = Done true w' ->
  (length (coordinator w') < length (coordinator w))%nat.
Proof.
  unfold round.
  intros (response & w1 & H1%doHeartbeat_coordinator & Hrun)%bind_Done_inv.
  destruct (JobType response).
  - apply bind_Done_inv in Hrun as (? & w2 & H2%doMapTask_coordinator & [= <-]).
    lia.
  - apply bind_Done_inv in Hrun as (? & w2 & H2%doReduceTask_coordinator & [= <-]).
    lia.
  - apply bind_Done_inv in Hrun as (? & w2 & H2%emit_coordinator & [= <-]).
    rewrite H2. lia.
  - discriminate.
  - unfold panic in Hrun. discriminate.
Qed.

Lemma rounds_enough :
  forall (fuel : nat) (w : World),
    (length (coordinator w) < fuel)%nat ->
    exists o, rounds fuel w = Some o.
Proof.
  induction fuel as [|fuel IH]; intros w Hfuel; [lia|].
  rewrite rounds_S. destruct (round w) as [[|] w'|why w'] eqn:Hround.
  - apply IH. apply round_coordinator in Hround. lia.
  - eauto.
  - eauto.
Qed.

(** The task loop always ends, by a return or by the end of the
    process, once the coordinator has no answer left at the latest. *)
Lemma Worker_total (w : World) : exists o, Worker w = Some o.
Proof. unfold Worker. apply rounds_enough. lia. Qed.

(** More rounds than needed change nothing. *)
Lemma rounds_more :
  forall (fuel : nat) (w : World) (o : Outcome unit),
    rounds fuel w = Some o -> rounds (S fuel) w = Some o.
Proof.
  induction fuel as [|fuel IH]; intros w o Hrun; [discriminate|].
  rewrite rounds_S in Hrun. rewrite rounds_S.
  destruct (round w) as [[|] w'|why w']; [now apply IH | exact Hrun | exact Hrun].
Qed.

(** ** Further properties of the worker *)

(** *** The map executor on inputs it cannot use *)

Lemma entered_and_called (w : World) (id : Z) (fileName content : string) :
  with_trace (with_trace w (trace w ++ [EvTask MapPhase id]))
             ((trace w ++ [EvTask MapPhase id]) ++ [EvMapF fileName content])
  = with_trace w (trace w ++ [EvTask MapPhase id; EvMapF fileName content]).
Proof. unfold with_trace. simpl. now rewrite <- app_assoc. Qed.

(** X1: when the input path of a map task holds no readable regular
    file, [doMapTask] exits through [log.Fatalf], with [cannot read] if
    the file opens and its reading fails and with [cannot open]
    otherwise; the map callback is not called, nothing is committed and
    nothing is reported. *)
Theorem map_unreadable_input_is_fatal (response : HeartbeatResponse) (w : World) :
  (forall content, fs w !! FilePath response <> Some (Regular content)) ->
  doMapTask response w
  = Crashed (LogFatal (match fs w !! FilePath response with
                       | Some (Faulty _) => "cannot read "
                       | _ => "cannot open "
                       end +:+ FilePath response))
            (with_trace w (trace w ++ [EvTask MapPhase (Id response)])).
Proof.
  intros Hno. unfold doMapTask. rewrite bind_emit.
  unfold bind, os_Open, lookup_path. cbn [fs with_trace].
  destruct (fs w !! FilePath response) as [[content| |prefix]|] eqn:Hfile.
  - now destruct (Hno content).
  - reflexivity.
  - reflexivity.
  - reflexivity.
Qed.

(** X2: a map task whose partition count is not positive, on a readable
    input.  With a negative count the executor panics in [make]; with
    count zero it panics on the division as soon as the callback has
    emitted a record, and with no record it starts no goroutine, commits
    no file and reports the task all the same.  In each case the
    callback has been called, once. *)
Theorem map_partition_count_not_positive
        (response : HeartbeatResponse) (w : World) (content : string) :
  fs w !! FilePath response = Some (Regular content) ->
  NReduce response <= 0 ->
  let w1 := with_trace w (trace w ++ [EvTask MapPhase (Id response);
                                      EvMapF (FilePath response) content]) in
  doMapTask response w
  = if NReduce response <? 0
    then Crashed (GoPanic "makeslice: len out of range") w1
    else match mapF (FilePath response) content with
         | [] => doReport (Id response) MapPhase w1
         | _ :: _ => Crashed (GoPanic "integer divide by zero") w1
         end.
Proof.
  intros Hfile HN w1. unfold doMapTask. rewrite bind_emit.
  erewrite bind_Done; cycle 1.
  { unfold os_Open, lookup_path. simpl fs. rewrite Hfile. reflexivity. }
  unfold ReadAll. cbn [faulty data]. rewrite bind_emit, entered_and_called.
  fold w1. unfold make.
  destruct (Z.ltb_spec (NReduce response) 0) as [Hneg|Hzero]; [reflexivity|].
  assert (NReduce response = 0) as HN0 by lia.
  rewrite bind_ret, HN0. change (Z.to_nat 0) with 0%nat. cbn [replicate].
  destruct (mapF (FilePath response) content) as [|kv kva].
  - cbn [foldM]. rewrite bind_ret.
    erewrite bind_Done; [reflexivity|].
    unfold fanOut. cbn [length].
    assert (goOrder w1 0 = []) as ->.
    { apply Permutation_nil. symmetry. apply (goOrder_perm w1 0). }
    reflexivity.
  - cbn [foldM]. reflexivity.
Qed.

(** X3: a map task that runs to its end (input readable, at least one
    partition, records encodable, paths writable, report served) does
    things in this order: it calls the callback once on the file's name
    and content, commits one file per bucket, and only then makes its one
    call, the report of [(Id, MapPhase)], which uses up one answer of the
    coordinator. *)
Theorem map_reports_once_after_all_commits
        (response : HeartbeatResponse) (w : World) (content : string)
        (rest : list Answer) :
  fs w !! FilePath response = Some (Regular content) ->
  1 <= NReduce response ->
  (forall kv, kv ∈ mapF (FilePath response) content -> is_Some (Encode kv)) ->
  (forall i, 0 <= i < NReduce response ->
             generateMapResultFileName (Id response) i ∉ unwritable w) ->
  coordinator w = Served ReportBody :: rest ->
  let kva := mapF (FilePath response) content in
  exists order w',
    order ≡ₚ seq 0 (Z.to_nat (NReduce response)) /\
    doMapTask response w = Done tt w' /\
    trace w'
    = trace w
        ++ [EvTask MapPhase (Id response); EvMapF (FilePath response) content]
        ++ map (fun i => EvCommit (generateMapResultFileName (Id response) (Z.of_nat i))
                                  (encoded (bucket (NReduce response) kva i))) order
        ++ [EvCall "Coordinator.Report" (ReportRequest (Id response) MapPhase)] /\
    coordinator w' = rest.
Proof.
  intros Hfile HN Hok Hw Hc kva.
  rewrite (doMapTask_run response w content Hfile HN Hok Hw). fold kva.
  set (w1 := with_trace w (trace w ++ [EvTask MapPhase (Id response);
                                       EvMapF (FilePath response) content])).
  set (order := goOrder w1 (Z.to_nat (NReduce response))).
  exists order. eexists. split; [apply goOrder_perm|]. split.
  - apply doReport_served. rewrite published_coordinator. exact Hc.
  - split; [|reflexivity]. cbn [trace with_trace with_coordinator].
    rewrite published_trace. simpl trace. now rewrite <- !app_assoc.
Qed.

(** *** The reduce executor without map tasks *)

(** X4: a reduce task over no map task ([NMap <= 0]) opens no file and
    calls no callback; it commits an empty output file and goes on to
    report. *)
Theorem reduce_without_map_tasks (response : HeartbeatResponse) (w : World) :
  NMap response <= 0 ->
  generateReduceResultFileName (Id response) ∉ unwritable w ->
  doReduceTask response w
  = doReport (Id response) ReducePhase
             (publish (with_trace w (trace w ++ [EvTask ReducePhase (Id response)]))
                      (generateReduceResultFileName (Id response)) EmptyString).
Proof.
  intros HM Hw. unfold doReduceTask. rewrite bind_emit.
  replace (Z.to_nat (NMap response)) with 0%nat by lia.
  cbn [readLoop]. rewrite bind_ret.
  erewrite bind_Done by apply reduceLoop_run.
  set (w1 := with_trace w (trace w ++ [EvTask ReducePhase (Id response)])).
  assert (rangeOrder w1 (group []) = []) as ->.
  { apply Permutation_nil. symmetry. rewrite rangeOrder_perm.
    unfold group. cbn [fold_left]. now rewrite map_to_list_empty. }
  cbn [map lines foldr]. rewrite app_nil_r, with_trace_same.
  now rewrite atomicWriteFile_ok by exact Hw.
Qed.

(** *** The task loop *)

Lemma rounds_waits (waits : list HeartbeatResponse) :
  forall (fuel : nat) (w : World) (r : HeartbeatResponse) (rest : list Answer),
    coordinator w
    = map (fun r => Served (HeartbeatBody r)) waits ++ Served (HeartbeatBody r) :: rest ->
    Forall (fun r => JobType r = WaitJob) waits ->
    JobType r = CompleteJob ->
    (length waits < fuel)%nat ->
    rounds fuel w
    = Some (Done tt
              (with_trace (with_coordinator w rest)
                 (trace w
                    ++ flat_map (fun _ => [EvCall "Coordinator.Heartbeat" HeartbeatRequest;
                                           EvSleep (1 * Second)]) waits
                    ++ [EvCall "Coordinator.Heartbeat" HeartbeatRequest]))).
Proof.
  induction waits as [|r0 waits IH]; intros fuel w r rest Hc Hwaits Hr Hfuel.
  - destruct fuel as [|fuel]; [simpl in Hfuel; lia|].
    rewrite rounds_S, (round_complete w r rest Hc Hr). reflexivity.
  - destruct fuel as [|fuel]; [simpl in Hfuel; lia|].
    apply Forall_cons in Hwaits as [Hr0 Hwaits].
    rewrite rounds_S, (round_wait w r0 _ Hc Hr0).
    rewrite (IH fuel _ r rest); [| reflexivity | exact Hwaits | exact Hr
                                 | simpl in Hfuel; lia].
    cbn [flat_map trace with_trace with_coordinator fs unwritable coordinator].
    now rewrite <- !app_assoc.
Qed.

(** X5: a worker that is told to wait any number of times and then that
    the job is complete sleeps one second after each wait response, as
    many times as it was told to wait, and returns; it enters no
    executor, sends no report, leaves the files alone and takes no answer
    of the coordinator beyond the one that says complete. *)
Theorem worker_sleeps_once_per_wait
        (w : World) (waits : list HeartbeatResponse) (r : HeartbeatResponse)
        (rest : list Answer) :
  coordinator w
  = map (fun r => Served (HeartbeatBody r)) waits ++ Served (HeartbeatBody r) :: rest ->
  Forall (fun r => JobType r = WaitJob) waits ->
  JobType r = CompleteJob ->
  exists w',
    Worker w = Some (Done tt w') /\
    sleeps_of (trace w') = sleeps_of (trace w) ++ replicate (length waits) (1 * Second) /\
    tasks_of (trace w') = tasks_of (trace w) /\
    reports_of (trace w') = reports_of (trace w) /\
    commits_of (trace w') = commits_of (trace w) /\
    fs w' = fs w /\
    coordinator w' = rest.
Proof.
  intros Hc Hwaits Hr. eexists. split.
  - unfold Worker. apply (rounds_waits waits _ w r rest Hc Hwaits Hr).
    rewrite Hc, length_app, length_map. simpl. lia.
  - cbn [trace with_trace with_coordinator fs coordinator].
    unfold sleeps_of, tasks_of, reports_of, commits_of.
    rewrite !flat_map_app. cbn [flat_map app]. rewrite !app_nil_r.
    repeat split.
    + f_equal. clear. induction waits as [|r0 waits IH]; [reflexivity|].
      cbn [flat_map app length replicate]. now rewrite IH.
    + rewrite (flat_map_none _ (flat_map _ waits)); [now rewrite app_nil_r|].
      clear. induction waits as [|r0 waits IH]; [constructor|].
      cbn [flat_map app]. now repeat constructor.
    + rewrite (flat_map_none _ (flat_map _ waits)); [now rewrite app_nil_r|].
      clear. induction waits as [|r0 waits IH]; [constructor|].
      cbn [flat_map app]. now repeat constructor.
    + rewrite (flat_map_none _ (flat_map _ waits)); [now rewrite app_nil_r|].
      clear. induction waits as [|r0 waits IH]; [constructor|].
      cbn [flat_map app]. now repeat constructor.
Qed.

(** X6: a heartbeat response whose job type is none of the four known
    ones makes the worker panic at once: it enters no executor, does not
    sleep and does not ask again. *)
Theorem worker_unknown_job_panics
        (w : World) (r : HeartbeatResponse) (code : Z) (rest : list Answer) :
  coordinator w = Served (HeartbeatBody r) :: rest ->
  JobType r = OtherJob code ->
  Worker w
  = Some (Crashed (GoPanic "unexpected jobType")
                  (with_trace (with_coordinator w rest)
                              (trace w ++ [EvCall "Coordinator.Heartbeat"
                                                  HeartbeatRequest]))).
Proof.
  intros Hc Hr. unfold Worker. rewrite rounds_S.
  unfold round, bind. now rewrite (doHeartbeat_served w r rest Hc), Hr.
Qed.



(** *** The hash *)

Lemma Sum32a_range (key : string) : 0 <= fnv.Sum32a key < 2 ^ 32.
Proof.
  unfold fnv.Sum32a.
  assert (0 <= fnv.offset32 < 2 ^ 32) as Hstart by (unfold fnv.offset32; lia).
  revert Hstart. generalize fnv.offset32.
  induction (list_ascii_of_string key) as [|c l IH]; intros h Hh; [exact Hh|].
  cbn [fold_left]. apply IH. unfold fnv.round32a. apply Z.mod_pos_bound. lia.
Qed.

(** X8: [iHash] is never negative and fits in 31 bits, and the mask
    does nothing but clear bit 31 of the FNV-1a sum: the result is the
    sum itself, or the sum less [2^31]. *)
Theorem iHash_clears_the_sign_bit (key : string) :
  0 <= iHash key < 2 ^ 31 /\
  (iHash key = fnv.Sum32a key \/ iHash key = fnv.Sum32a key - 2 ^ 31).
Proof.
  pose proof (Sum32a_range key) as Hsum.
  split; [apply iHash_range|]. rewrite iHash_masked.
  destruct (Z_lt_le_dec (fnv.Sum32a key) (2 ^ 31)) as [Hlow|Hhigh].
  - left. apply Z.mod_small. lia.
  - right.
    replace (fnv.Sum32a key) with ((fnv.Sum32a key - 2 ^ 31) + 1 * 2 ^ 31) at 1 by lia.
    rewrite Z_mod_plus_full. apply Z.mod_small. lia.
Qed.

(** *** Steps that leave the world as it is *)

Lemma foldM_same_world {A B} (f : A -> B -> M A) :
  (forall a x w, world_of (f a x w) = w) ->
  forall l a w, world_of (foldM f l a w) = w.
Proof.
  intros Hf. induction l as [|x l IH]; intros a w; [reflexivity|].
  cbn [foldM]. unfold bind. pose proof (Hf a x w) as Hx.
  destruct (f a x w) as [a' w'|why w']; simpl in Hx; subst w'; [apply IH | reflexivity].
Qed.

Lemma route_same_world (nReduce : Z) intermediates kv (w : World) :
  world_of (route nReduce intermediates kv w) = w.
Proof.
  unfold route. destruct (nReduce =? 0); [reflexivity|].
  now destruct (index intermediates _).
Qed.

Lemma encodeLoop_same_world (records : list KeyValue) (w : World) :
  world_of (encodeLoop records w) = w.
Proof.
  unfold encodeLoop. apply foldM_same_world. intros buf kv w0.
  now destruct (Encode kv).
Qed.

Lemma readLoop_same_world (response : HeartbeatResponse) :
  forall n i kva (w : World), world_of (readLoop response n i kva w) = w.
Proof.
  induction n as [|n IH]; intros i kva w; [reflexivity|].
  cbn [readLoop]. unfold bind, os_Open.
  destruct (lookup_path (fs w) _) as [file|e]; [apply IH | reflexivity].
Qed.

(** *** Every value reaches the reduce callback *)

Lemma group_snoc (kva : list KeyValue) (kv : KeyValue) :
  group (kva ++ [kv])
  = <[Key kv := default [] (group kva !! Key kv) ++ [Value kv]]> (group kva).
Proof. unfold group. now rewrite fold_left_app. Qed.

Lemma delivered_cons (key : string) (values : list string)
      (entries : list (string * list string)) :
  delivered ((key, values) :: entries) = map (pair key) values ++ delivered entries.
Proof. reflexivity. Qed.

(** The entries of [results], taken apart, are the records of [kva]. *)
Lemma delivered_group (kva : list KeyValue) :
  delivered (map_to_list (group kva)) ≡ₚ map (fun kv => (Key kv, Value kv)) kva.
Proof.
  induction kva as [|kv kva IH] using rev_ind.
  - unfold group. cbn [fold_left]. now rewrite map_to_list_empty.
  - rewrite group_snoc, map_app. cbn [map]. rewrite <- IH.
    destruct (group kva !! Key kv) as [old|] eqn:Hold.
    + rewrite <- insert_delete_eq.
      unfold delivered at 1.
      rewrite map_to_list_insert by apply lookup_delete_eq.
      fold (delivered ((Key kv, default [] (Some old) ++ [Value kv])
                         :: map_to_list (delete (Key kv) (group kva)))).
      unfold delivered at 2.
      rewrite <- (map_to_list_delete (group kva) (Key kv) old Hold).
      fold (delivered ((Key kv, old) :: map_to_list (delete (Key kv) (group kva)))).
      rewrite !delivered_cons. cbn [default from_option]. unfold id.
      rewrite map_app, <- !app_assoc. cbn [map].
      apply Permutation_app_head, Permutation_app_comm.
    + unfold delivered at 1.
      rewrite map_to_list_insert by exact Hold.
      fold (delivered ((Key kv, default [] None ++ [Value kv])
                         :: map_to_list (group kva))).
      rewrite delivered_cons. cbn.
      change ((Key kv, Value kv) :: ?l) with ([(Key kv, Value kv)] ++ l).
      apply Permutation_app_comm.
Qed.

(** X11: when a reduce task's intermediate files all open, the values
    handed to the reduce callback, each with the key of its call, are
    the records read from the files, each once: no value is dropped and
    none is handed over twice, also when records repeat. *)
Theorem reduce_delivers_every_value_once (response : HeartbeatResponse) (w : World) :
  (forall i, 0 <= i < NMap response ->
             exists file,
               lookup_path (fs w) (generateMapResultFileName i (Id response))
               = inl file) ->
  let kva :=
    flat_map (fun i => records_at (fs w)
                         (generateMapResultFileName (Z.of_nat i) (Id response)))
             (seq 0 (Z.to_nat (NMap response))) in
  exists entries,
    calls_of (trace (world_of (doReduceTask response w)))
    = calls_of (trace w) ++ entries /\
    delivered entries ≡ₚ map (fun kv => (Key kv, Value kv)) kva.
Proof.
  intros Hopen kva. subst kva. rewrite <- sources_from_0.
  rewrite (doReduceTask_run response w Hopen).
  set (kva := sources (fs w) (Id response) 0 (Z.to_nat (NMap response))).
  set (w1 := with_trace w (trace w ++ [EvTask ReducePhase (Id response)])).
  set (entries := rangeOrder w1 (group kva)).
  exists entries. split.
  - rewrite commit_then_report_calls. simpl trace.
    now rewrite calls_of_app, calls_of_task, calls_of_map.
  - unfold entries, delivered. rewrite rangeOrder_perm. apply delivered_group.
Qed.

(** *** From the map executor to the reduce executor *)

Lemma values_for_own (nReduce p : Z) (key : string) (kva : list KeyValue) :
  partition key nReduce = p ->
  values_for key (filter (fun kv => partition (Key kv) nReduce = p) kva)
  = values_for key kva.
Proof.
  intros Hp. unfold values_for. f_equal.
  apply list_filter_filter_l. now intros kv ->.
Qed.

(** X12: the reduce executor finds what the map executor left.  After
    the one map task of a job (id 0) has run on a readable input, the
    reduce task of any partition [p] in [0, NReduce), if the decoder
    reads back what the encoder wrote for bucket [p], calls the callback
    once for every emitted key whose partition is [p], and for no other
    key, with all the values emitted for that key in the order of their
    emission. *)
Theorem reduce_after_map_gets_its_partition
        (mapTask reduceTask : HeartbeatResponse) (w : World) (content : string) :
  fs w !! FilePath mapTask = Some (Regular content) ->
  1 <= NReduce mapTask ->
  (forall kv, kv ∈ mapF (FilePath mapTask) content -> is_Some (Encode kv)) ->
  (forall i, 0 <= i < NReduce mapTask ->
             generateMapResultFileName (Id mapTask) i ∉ unwritable w) ->
  (forall i j, 0 <= i < NReduce mapTask -> 0 <= j < NReduce mapTask ->
               generateMapResultFileName (Id mapTask) i
               = generateMapResultFileName (Id mapTask) j ->
               i = j) ->
  Id mapTask = 0 ->
  NMap reduceTask = 1 ->
  0 <= Id reduceTask < NReduce mapTask ->
  let kva := mapF (FilePath mapTask) content in
  let own := filter (fun kv => partition (Key kv) (NReduce mapTask) = Id reduceTask) kva in
  values_of (Decode (encoded own)) = own ->
  let between := world_of (doMapTask mapTask w) in
  exists entries,
    calls_of (trace (world_of (doReduceTask reduceTask between)))
    = calls_of (trace between) ++ entries /\
    NoDup entries.*1 /\
    (forall key,
        key ∈ entries.*1 <->
        partition key (NReduce mapTask) = Id reduceTask /\
        exists kv, kv ∈ kva /\ Key kv = key) /\
    (forall key values, (key, values) ∈ entries -> values = values_for key kva).
Proof.
  intros Hfile HN Hok Hw Hinj Hid HM Hp kva own Hcodec between.
  destruct (doMapTask_world mapTask w content Hfile HN Hok Hw)
    as (order & Hperm & Hfs & _).
  fold kva between in Hfs.
  assert (lookup_path (fs between)
                      (generateMapResultFileName 0 (Id reduceTask))
          = inl {| data := encoded own; faulty := false |}) as Hown.
  { unfold lookup_path. rewrite Hfs, <- Hid, <- (Z2Nat.id (Id reduceTask)) at 1 by lia.
    rewrite published_own.
    - unfold own, bucket. now rewrite Z2Nat.id by lia.
    - rewrite Hperm. apply NoDup_seq.
    - intros j k Hj Hk Hsame. rewrite Hperm in Hj, Hk.
      apply elem_of_seq in Hj, Hk.
      apply Nat2Z.inj, Hinj; [lia | lia | exact Hsame].
    - rewrite Hperm. apply elem_of_seq. lia. }
  assert (forall i, 0 <= i < NMap reduceTask ->
                    exists file,
                      lookup_path (fs between)
                                  (generateMapResultFileName i (Id reduceTask))
                      = inl file) as Hopen.
  { intros i Hi. replace i with 0 by lia. eexists. exact Hown. }
  rewrite (doReduceTask_run reduceTask between Hopen).
  assert (sources (fs between) (Id reduceTask) 0 (Z.to_nat (NMap reduceTask)) = own)
    as ->.
  { rewrite HM. unfold sources. change (Z.to_nat 1) with 1%nat.
    cbn [seq flat_map]. rewrite app_nil_r. unfold records_at.
    change (0 + Z.of_nat 0) with 0. rewrite Hown.
    unfold NewDecoder. cbn [faulty data]. exact Hcodec. }
  set (w1 := with_trace between (trace between ++ [EvTask ReducePhase (Id reduceTask)])).
  set (entries := rangeOrder w1 (group own)).
  destruct (range_entries w1 own) as (Hnodup & Hkeys & Hvalues).
  fold entries in Hnodup, Hkeys, Hvalues.
  exists entries. split; [|split; [exact Hnodup|split]].
  - rewrite commit_then_report_calls. simpl trace.
    now rewrite calls_of_app, calls_of_task, calls_of_map.
  - intros key. rewrite Hkeys. unfold own. split.
    + intros (kv & [Hpart Hin]%list_elem_of_filter & <-). split; [exact Hpart|].
      now exists kv.
    + intros (Hpart & kv & Hin & <-). exists kv. split; [|reflexivity].
      apply list_elem_of_filter. now split.
  - intros key values Hin. rewrite (Hvalues key values Hin).
    apply values_for_own.
    assert (key ∈ entries.*1) as Hkey.
    { apply list_elem_of_fmap. now exists (key, values). }
    apply Hkeys in Hkey as (kv & [Hpart _]%list_elem_of_filter & <-).
    exact Hpart.
Qed.

(** *** The goroutines' order *)

(** Two orders of the same buckets, each with a file of its own, leave
    the same files. *)
Lemma published_any_order (response : HeartbeatResponse) (kva : list KeyValue)
      (order order' : list nat) (w : World) :
  order ≡ₚ order' ->
  NoDup order ->
  (forall j k, j ∈ order -> k ∈ order ->
               generateMapResultFileName (Id response) (Z.of_nat j)
               = generateMapResultFileName (Id response) (Z.of_nat k) ->
               j = k) ->
  fs (published response kva order w) = fs (published response kva order' w).
Proof.
  intros Hperm Hnodup Hinj. apply map_eq. intros path.
  destruct (decide (path ∈ (fun i => generateMapResultFileName (Id response) (Z.of_nat i))
                             <$> order)) as [Hin|Hout].
  - apply list_elem_of_fmap in Hin as (i & -> & Hi).
    rewrite !published_own; try reflexivity; try assumption.
    + now rewrite <- Hperm.
    + intros j k Hj Hk. apply Hinj; now rewrite Hperm.
    + now rewrite <- Hperm.
  - rewrite !published_other; [reflexivity | |].
    + intros i Hi Hsame. apply Hout, list_elem_of_fmap. exists i.
      split; [now symmetry | now rewrite Hperm].
    + intros i Hi Hsame. apply Hout, list_elem_of_fmap. exists i.
      split; [now symmetry | exact Hi].
Qed.

(** *** When a task is reported *)

Lemma bind_same {A B X} (obs : World -> X) (m : M A) (k : A -> M B) (w : World) :
  obs (world_of (m w)) = obs w ->
  (forall a w', m w = Done a w' -> obs (world_of (k a w')) = obs w') ->
  obs (world_of (bind m k w)) = obs w.
Proof.
  unfold bind. destruct (m w) as [a w'|why w']; simpl; intros Hm Hk; [|exact Hm].
  now rewrite (Hk a w' eq_refl).
Qed.

Lemma foldM_same {A B X} (obs : World -> X) (f : A -> B -> M A) :
  (forall a x w, obs (world_of (f a x w)) = obs w) ->
  forall l a w, obs (world_of (foldM f l a w)) = obs w.
Proof.
  intros Hf. induction l as [|x l IH]; intros a w; [reflexivity|].
  cbn [foldM]. apply bind_same; [apply Hf|]. intros a' w' _. apply IH.
Qed.

(** A step that sends no report, followed by one that sends the report
    [x] if it returns and none if it does not. *)
Lemma bind_then_report {A B} (x : Z * SchedulePhase) (m : M A) (k : A -> M B)
      (w : World) :
  reports_of (trace (world_of (m w))) = reports_of (trace w) ->
  (forall a w', m w = Done a w' ->
                match k a w' with
                | Done _ w'' => reports_of (trace w'') = reports_of (trace w') ++ [x]
                | Crashed _ w'' => reports_of (trace w'') = reports_of (trace w')
                end) ->
  match bind m k w with
  | Done _ w'' => reports_of (trace w'') = reports_of (trace w) ++ [x]
  | Crashed _ w'' => reports_of (trace w'') = reports_of (trace w)
  end.
Proof.
  unfold bind. destruct (m w) as [a w'|why w']; simpl; intros Hm Hk; [|exact Hm].
  specialize (Hk a w' eq_refl). rewrite <- Hm. exact Hk.
Qed.

Lemma reports_of_snoc (t : list Event) (e : Event) :
  reports_of (t ++ [e])
  = reports_of t ++ match e with
                    | EvCall _ (ReportRequest id phase) => [(id, phase)]
                    | _ => []
                    end.
Proof. rewrite reports_of_app. simpl. now rewrite app_nil_r. Qed.

Lemma doReport_reports (id : Z) (phase : SchedulePhase) (w : World) :
  match doReport id phase w with
  | Done _ w' => reports_of (trace w') = reports_of (trace w) ++ [(id, phase)]
  | Crashed _ w' => reports_of (trace w') = reports_of (trace w)
  end.
Proof.
  unfold doReport, call, bind, DialHTTP.
  destruct (coordinator w) as [|[| |[r|]] rest]; simpl; try reflexivity.
  - now rewrite !reports_of_snoc, app_nil_r.
  - now rewrite !reports_of_snoc, app_nil_r.
  - now rewrite reports_of_snoc.
Qed.

Lemma atomicWriteFile_reports (path buf : string) (w : World) :
  reports_of (trace (world_of (atomicWriteFile path buf w))) = reports_of (trace w).
Proof.
  unfold atomicWriteFile. destruct (decide (path ∈ unwritable w)); [reflexivity|].
  unfold publish. simpl. now rewrite reports_of_snoc, app_nil_r.
Qed.

Lemma emit_reports (e : Event) (w : World) :
  (forall rpcName id phase, e <> EvCall rpcName (ReportRequest id phase)) ->
  reports_of (trace (world_of (emit e w))) = reports_of (trace w).
Proof.
  intros He. simpl. rewrite reports_of_snoc.
  destruct e as [| | | |rpcName [|id phase]| |]; try apply app_nil_r.
  now destruct (He rpcName id phase).
Qed.

(** X14: a map task sends its report last and only if it got there:
    when [doMapTask] returns it has made exactly one report call, for
    [(Id, MapPhase)], and when it ends the process instead (unreadable
    input, a panic, a failed encoding or commit, a failed dial) it has
    made none. *)
Theorem map_reports_iff_it_returns (response : HeartbeatResponse) (w : World) :
  match doMapTask response w with
  | Done _ w' =>
      reports_of (trace w') = reports_of (trace w) ++ [(Id response, MapPhase)]
  | Crashed _ w' => reports_of (trace w') = reports_of (trace w)
  end.
Proof.
  unfold doMapTask.
  apply bind_then_report; [now apply emit_reports|]. intros [] w1 _.
  apply bind_then_report; [reflexivity|]. intros found w2 _.
  destruct found as [file|e]; [|reflexivity].
  destruct (ReadAll file) as [content|]; [|reflexivity].
  apply bind_then_report; [now apply emit_reports|]. intros [] w3 _.
  apply bind_then_report.
  { unfold make. now destruct (NReduce response <? 0). }
  intros ints w4 _.
  apply bind_then_report.
  { now rewrite (foldM_same_world _ (route_same_world (NReduce response))). }
  intros ints' w5 _.
  apply bind_then_report.
  - unfold fanOut.
    apply (foldM_same (fun w => reports_of (trace w))). intros [] i w0.
    destruct (ints' !! i) as [records|]; [|reflexivity].
    unfold goroutine.
    apply (bind_same (fun w => reports_of (trace w))).
    + now rewrite encodeLoop_same_world.
    + intros buf w0' _. apply atomicWriteFile_reports.
  - intros [] w6 _. apply doReport_reports.
Qed.

(** X15: a reduce task sends its report last and only if it got there:
    when [doReduceTask] returns it has made exactly one report call, for
    [(Id, ReducePhase)], and when it ends the process instead (a file
    that does not open, a failed commit, a failed dial) it has made
    none. *)
Theorem reduce_reports_iff_it_returns (response : HeartbeatResponse) (w : World) :
  match doReduceTask response w with
  | Done _ w' =>
      reports_of (trace w') = reports_of (trace w) ++ [(Id response, ReducePhase)]
  | Crashed _ w' => reports_of (trace w') = reports_of (trace w)
  end.
Proof.
  unfold doReduceTask.
  apply bind_then_report; [now apply emit_reports|]. intros [] w1 _.
  apply bind_then_report; [now rewrite readLoop_same_world|]. intros kva w2 _.
  apply bind_then_report.
  { rewrite reduceLoop_run. simpl. now rewrite reports_of_app, reports_of_map, app_nil_r. }
  intros buf w3 _.
  apply bind_then_report; [apply atomicWriteFile_reports|]. intros [] w4 _.
  apply doReport_reports.
Qed.

(** *** One task at a time *)

Lemma rounds_mono (fuel fuel' : nat) (w : World) (o : Outcome unit) :
  rounds fuel w = Some o -> (fuel <= fuel')%nat -> rounds fuel' w = Some o.
Proof.
  intros Hrun Hle. induction Hle as [|fuel' _ IH]; [exact Hrun|].
  now apply rounds_more.
Qed.

(** The loop is its body followed by the loop: the bound on the rounds
    does not show. *)
Lemma Worker_unroll (w : World) :
  Worker w
  = match round w with
    | Done true w' => Worker w'
    | Done false w' => Some (Done tt w')
    | Crashed why w' => Some (Crashed why w')
    end.
Proof.
  unfold Worker at 1. rewrite rounds_S.
  destruct (round w) as [[|] w'|why w'] eqn:Hround; try reflexivity.
  destruct (Worker_total w') as [o Ho]. rewrite Ho.
  apply (rounds_mono (S (length (coordinator w')))); [exact Ho|].
  apply round_coordinator in Hround. lia.
Qed.

(** *** The one way out of the loop *)



(** X16: the worker runs one task at a time and never a task twice.
    On a map or reduce job it runs the executor on the world its
    heartbeat left; if the executor returns, the worker carries on from
    the world the task left exactly as a worker started there would, its
    next step being a new heartbeat; if the executor ends the process,
    that is the end of the worker, with no second attempt. *)
Theorem worker_runs_one_task_at_a_time
        (w : World) (r : HeartbeatResponse) (rest : list Answer) :
  coordinator w = Served (HeartbeatBody r) :: rest ->
  let w1 := with_trace (with_coordinator w rest)
                       (trace w ++ [EvCall "Coordinator.Heartbeat" HeartbeatRequest]) in
  (JobType r = MapJob ->
   Worker w = match doMapTask r w1 with
              | Done _ w' => Worker w'
              | Crashed why w' => Some (Crashed why w')
              end) /\
  (JobType r = ReduceJob ->
   Worker w = match doReduceTask r w1 with
              | Done _ w' => Worker w'
              | Crashed why w' => Some (Crashed why w')
              end).
Proof.
  intros Hc w1. split; intros Hjob.
  - rewrite Worker_unroll. unfold round, bind.
    rewrite (doHeartbeat_served w r rest Hc), Hjob. fold w1.
    now destruct (doMapTask r w1).
  - rewrite Worker_unroll. unfold round, bind.
    rewrite (doHeartbeat_served w r rest Hc), Hjob. fold w1.
    now destruct (doReduceTask r w1).
Qed.

End Worker.

(** ** The model on concrete worlds *)

Example iHash_empty : iHash "" = 0x011c9dc5.
Proof. reflexivity. Qed.

Example iHash_a : iHash "a" = 0x640c292c.
Proof. reflexivity. Qed.

Example iHash_foobar : iHash "foobar" = Z.land 0xbf9cf968 0x7fffffff.
Proof. reflexivity. Qed.

Example partition_a_b : partition "a" 2 = 0 /\ partition "b" 2 = 1.
Proof. split; reflexivity. Qed.

Lemma lastFirst_perm (w : World) (n : nat) : Sample.lastFirst w n ≡ₚ seq 0 n.
Proof. unfold Sample.lastFirst. symmetry. apply Permutation_rev. Qed.

Lemma inOrder_perm (w : World) (n : nat) : Sample.inOrder w n ≡ₚ seq 0 n.
Proof. reflexivity. Qed.

Lemma listed_perm (w : World) (m : gmap string (list string)) :
  Sample.listed w m ≡ₚ map_to_list m.
Proof. reflexivity. Qed.

Lemma mapResultName_two (i j : Z) :
  0 <= i < 2 -> 0 <= j < 2 ->
  Sample.mapResultName 0 i = Sample.mapResultName 0 j -> i = j.
Proof.
  intros Hi Hj.
  assert (i = 0 \/ i = 1) as [-> | ->] by lia;
    assert (j = 0 \/ j = 1) as [-> | ->] by lia;
    vm_compute; congruence.
Qed.

Lemma mapTask_encodes (kv : KeyValue) :
  kv ∈ Sample.mapF "in.txt" "a b a" -> is_Some (Sample.encode kv).
Proof.
  revert kv. apply Forall_forall. vm_compute.
  repeat (constructor; [eexists; reflexivity|]). constructor.
Qed.

Lemma mapWorld_writable (i : Z) :
  0 <= i < 2 -> Sample.mapResultName 0 i ∉ unwritable Sample.mapWorld.
Proof. intros _. apply not_elem_of_empty. Qed.

Lemma orderWorld_encodes (kv : KeyValue) :
  kv ∈ Sample.mapF "in.txt" "c b a" -> is_Some (Sample.encode kv).
Proof.
  revert kv. apply Forall_forall. vm_compute.
  repeat (constructor; [eexists; reflexivity|]). constructor.
Qed.

Lemma orderWorld_writable (i : Z) :
  0 <= i < 2 -> Sample.mapResultName 0 i ∉ unwritable Sample.orderWorld.
Proof. intros _. apply not_elem_of_empty. Qed.

Lemma reduceWorld_opens (i : Z) :
  0 <= i < 2 ->
  exists file, lookup_path (fs Sample.reduceWorld) (Sample.mapResultName i 0) = inl file.
Proof.
  intros Hi. assert (i = 0 \/ i = 1) as [-> | ->] by lia; eexists; vm_compute; reflexivity.
Qed.

Lemma brokenWorld_opens (i : Z) :
  0 <= i < 2 ->
  exists file, lookup_path (fs Sample.brokenWorld) (Sample.mapResultName i 0) = inl file.
Proof.
  intros Hi. assert (i = 0 \/ i = 1) as [-> | ->] by lia; eexists; vm_compute; reflexivity.
Qed.

(** *** C2 *)

Lemma partition_in_range_and_deterministic_witness :
  1 <= 3 /\
  (0 <= partition "a" 3 < 3 /\
   partition "a" 3 = (fnv.Sum32a "a" mod 2 ^ 31) mod 3 /\
   (forall key' nReduce',
       key' = "a"%string -> nReduce' = 3 -> partition key' nReduce' = partition "a" 3)).
Proof.
  split; [lia|]. apply (partition_in_range_and_deterministic "a" 3). lia.
Defined.

(** *** C9 *)

Lemma wait_wait_complete_sleeps_twice_witness :
  coordinator Sample.idleWorld
  = [Served (HeartbeatBody (Sample.idle WaitJob));
     Served (HeartbeatBody (Sample.idle WaitJob));
     Served (HeartbeatBody (Sample.idle CompleteJob))] /\
  exists w',
    Worker Sample.mapResultName Sample.reduceResultName Sample.zeroJob
           Sample.encode Sample.decode Sample.lastFirst Sample.listed
           Sample.mapF Sample.reduceF Sample.idleWorld
    = Some (Done tt w') /\
    trace w' = trace Sample.idleWorld
                 ++ [EvCall "Coordinator.Heartbeat" HeartbeatRequest;
                     EvSleep (1 * Second);
                     EvCall "Coordinator.Heartbeat" HeartbeatRequest;
                     EvSleep (1 * Second);
                     EvCall "Coordinator.Heartbeat" HeartbeatRequest] /\
    sleeps_of (trace w') = sleeps_of (trace Sample.idleWorld) ++ [Second; Second] /\
    tasks_of (trace w') = tasks_of (trace Sample.idleWorld) /\
    reports_of (trace w') = reports_of (trace Sample.idleWorld) /\
    fs w' = fs Sample.idleWorld /\
    coordinator w' = [].
Proof.
  split; [reflexivity|].
  apply (wait_wait_complete_sleeps_twice
           Sample.mapResultName Sample.reduceResultName Sample.zeroJob
           Sample.encode Sample.decode Sample.lastFirst Sample.listed
           Sample.mapF Sample.reduceF Sample.idleWorld
           (Sample.idle WaitJob) (Sample.idle WaitJob) (Sample.idle CompleteJob) []);
    reflexivity.
Defined.

(** The claim as the specification words it, that the loop sleeps once,
    fails on that run: the worker returns after two sleeps. *)
Lemma wait_wait_complete_counterexample :
  exists w',
    Worker Sample.mapResultName Sample.reduceResultName Sample.zeroJob
           Sample.encode Sample.decode Sample.lastFirst Sample.listed
           Sample.mapF Sample.reduceF Sample.idleWorld
    = Some (Done tt w') /\
    sleeps_of (trace w') = [Second; Second] /\
    length (sleeps_of (trace w')) <> 1%nat.
Proof.
  eexists. split; [vm_compute; reflexivity|]. split; [reflexivity|].
  vm_compute. discriminate.
Qed.

(** *** C8 *)

(** The call that reports the reduce task fails; the worker prints the
    error, asks for the next task and returns when told that the job is
    complete. *)
Lemma call_error_counterexample :
  call "Coordinator.Report" (ReportRequest 0 ReducePhase) ReportBody
       (with_coordinator Sample.idleWorld [CallError])
  = Done (false, ReportBody)
         (with_trace (with_coordinator Sample.idleWorld [])
                     [EvCall "Coordinator.Report" (ReportRequest 0 ReducePhase);
                      EvPrintln]) /\
  exists w',
    Worker Sample.mapResultName Sample.reduceResultName Sample.zeroJob
           Sample.encode Sample.decode Sample.lastFirst Sample.listed
           Sample.mapF Sample.reduceF Sample.flakyWorld
    = Some (Done tt w') /\
    trace w' = [EvCall "Coordinator.Heartbeat" HeartbeatRequest;
                EvTask ReducePhase 0;
                EvCommit "mr-out-0" EmptyString;
                EvCall "Coordinator.Report" (ReportRequest 0 ReducePhase);
                EvPrintln;
                EvCall "Coordinator.Heartbeat" HeartbeatRequest].
Proof.
  split; [reflexivity|].
  eexists. split; [vm_compute; reflexivity | reflexivity].
Qed.

(** *** C1 *)

Lemma reduce_missing_file_is_fatal_witness :
  (0 <= 1 < NMap Sample.reduceTask /\
   fs Sample.missingWorld !! Sample.mapResultName 1 (Id Sample.reduceTask) = None) /\
  exists j w',
    0 <= j <= 1 /\
    doReduceTask Sample.mapResultName Sample.reduceResultName Sample.decode
                 Sample.listed Sample.reduceF Sample.reduceTask Sample.missingWorld
    = Crashed (LogFatal ("cannot open " +:+
                         Sample.mapResultName j (Id Sample.reduceTask))) w' /\
    fs w' = fs Sample.missingWorld /\
    coordinator w' = coordinator Sample.missingWorld /\
    commits_of (trace w') = commits_of (trace Sample.missingWorld) /\
    reports_of (trace w') = reports_of (trace Sample.missingWorld) /\
    calls_of (trace w') = calls_of (trace Sample.missingWorld).
Proof.
  assert (0 <= 1 < NMap Sample.reduceTask) as Hi by (simpl; lia).
  assert (fs Sample.missingWorld !! Sample.mapResultName 1 (Id Sample.reduceTask) = None)
    as Hmissing by (vm_compute; reflexivity).
  split; [split; assumption|].
  exact (reduce_missing_file_is_fatal
           Sample.mapResultName Sample.reduceResultName Sample.decode
           Sample.listed Sample.reduceF Sample.reduceTask Sample.missingWorld 1
           Hi Hmissing).
Defined.

(** The file of map task 1 for partition 0 does not exist: the reduce
    executor exits, where on the same world with that file present and
    empty it commits the output of map task 0's record and reports. *)
Lemma reduce_missing_file_counterexample :
  fs Sample.missingWorld !! Sample.mapResultName 1 0 = None /\
  doReduceTask Sample.mapResultName Sample.reduceResultName Sample.decode
               Sample.listed Sample.reduceF Sample.reduceTask Sample.missingWorld
  = Crashed (LogFatal "cannot open mr-1-0")
            (with_trace Sample.missingWorld [EvTask ReducePhase 0]) /\
  exists w',
    doReduceTask Sample.mapResultName Sample.reduceResultName Sample.decode
                 Sample.listed Sample.reduceF Sample.reduceTask Sample.emptyFileWorld
    = Done tt w' /\
    commits_of (trace w') = [("mr-out-0"%string, ("a 1" +:+ newline)%string)] /\
    reports_of (trace w') = [(0, ReducePhase)].
Proof.
  split; [vm_compute; reflexivity|].
  split; [vm_compute; reflexivity|].
  eexists. split; [vm_compute; reflexivity|]. split; vm_compute; reflexivity.
Qed.

(** *** C5 and C6 *)

Lemma reduce_output_one_line_per_key_witness :
  (Sample.reduceResultName (Id Sample.reduceTask) ∉ unwritable Sample.reduceWorld) /\
  let kva := sources Sample.mapResultName Sample.decode (fs Sample.reduceWorld)
                     (Id Sample.reduceTask) 0 (Z.to_nat (NMap Sample.reduceTask)) in
  let after :=
    world_of (doReduceTask Sample.mapResultName Sample.reduceResultName Sample.decode
                           Sample.listed Sample.reduceF Sample.reduceTask
                           Sample.reduceWorld) in
  exists entries,
    fs after !! Sample.reduceResultName (Id Sample.reduceTask)
    = Some (Regular (lines Sample.reduceF entries)) /\
    commits_of (trace after)
    = commits_of (trace Sample.reduceWorld)
        ++ [(Sample.reduceResultName (Id Sample.reduceTask),
             lines Sample.reduceF entries)] /\
    lines Sample.reduceF entries
    = foldr (fun entry rest =>
               (entry.1 +:+ " " +:+ Sample.reduceF entry.1 entry.2 +:+ newline) +:+ rest)
            EmptyString entries /\
    NoDup entries.*1 /\
    (forall key, key ∈ entries.*1 <-> exists kv, kv ∈ kva /\ Key kv = key) /\
    (forall key values, (key, values) ∈ entries -> values = values_for key kva).
Proof.
  assert (Sample.reduceResultName (Id Sample.reduceTask) ∉ unwritable Sample.reduceWorld)
    as Hw by apply not_elem_of_empty.
  split; [exact Hw|].
  exact (reduce_output_one_line_per_key
           Sample.mapResultName Sample.reduceResultName Sample.decode
           Sample.listed Sample.reduceF listed_perm
           Sample.reduceTask Sample.reduceWorld reduceWorld_opens Hw).
Defined.

Lemma reduce_callback_values_in_source_order_witness :
  let kva :=
    flat_map (fun i => records_at Sample.decode (fs Sample.reduceWorld)
                         (Sample.mapResultName (Z.of_nat i) (Id Sample.reduceTask)))
             (seq 0 (Z.to_nat (NMap Sample.reduceTask))) in
  kva = [{| Key := "a"; Value := "1" |}; {| Key := "b"; Value := "1" |};
         {| Key := "a"; Value := "2" |}] /\
  exists entries,
    calls_of (trace (world_of
                       (doReduceTask Sample.mapResultName Sample.reduceResultName
                                     Sample.decode Sample.listed Sample.reduceF
                                     Sample.reduceTask Sample.reduceWorld)))
    = calls_of (trace Sample.reduceWorld) ++ entries /\
    NoDup entries.*1 /\
    (forall key, key ∈ entries.*1 <-> exists kv, kv ∈ kva /\ Key kv = key) /\
    (forall key values,
        (key, values) ∈ entries ->
        values = map Value (filter (fun kv => Key kv = key) kva)).
Proof.
  intros kva. split; [vm_compute; reflexivity|].
  exact (reduce_callback_values_in_source_order
           Sample.mapResultName Sample.reduceResultName Sample.decode
           Sample.listed Sample.reduceF listed_perm
           Sample.reduceTask Sample.reduceWorld reduceWorld_opens).
Defined.

(** *** C7 *)

Lemma reduce_open_error_fatal_decode_error_not_witness :
  (lookup_path (fs Sample.lockedWorld) (Sample.mapResultName 0 (Id Sample.reduceOne))
   = inr EACCES /\
   exists j w',
     0 <= j <= 0 /\
     doReduceTask Sample.mapResultName Sample.reduceResultName Sample.decode
                  Sample.listed Sample.reduceF Sample.reduceOne Sample.lockedWorld
     = Crashed (LogFatal ("cannot open " +:+
                          Sample.mapResultName j (Id Sample.reduceOne))) w' /\
     fs w' = fs Sample.lockedWorld /\
     coordinator w' = coordinator Sample.lockedWorld /\
     commits_of (trace w') = commits_of (trace Sample.lockedWorld) /\
     reports_of (trace w') = reports_of (trace Sample.lockedWorld) /\
     calls_of (trace w') = calls_of (trace Sample.lockedWorld)) /\
  (error_of (Sample.decode (Sample.row "a" "1" +:+ "{")) = Malformed /\
   error_of (NewDecoder Sample.decode {| data := Sample.row "b" "2"; faulty := true |})
   = ReadError /\
   exists entries w',
     doReduceTask Sample.mapResultName Sample.reduceResultName Sample.decode
                  Sample.listed Sample.reduceF Sample.reduceTask Sample.brokenWorld
     = Done tt w' /\
     commits_of (trace w')
     = commits_of (trace Sample.brokenWorld)
         ++ [(Sample.reduceResultName (Id Sample.reduceTask),
              lines Sample.reduceF entries)] /\
     reports_of (trace w')
     = reports_of (trace Sample.brokenWorld) ++ [(Id Sample.reduceTask, ReducePhase)] /\
     forall i file kv,
       0 <= i < NMap Sample.reduceTask ->
       lookup_path (fs Sample.brokenWorld)
                   (Sample.mapResultName i (Id Sample.reduceTask)) = inl file ->
       kv ∈ values_of (NewDecoder Sample.decode file) ->
       Key kv ∈ entries.*1).
Proof.
  assert (lookup_path (fs Sample.lockedWorld)
                      (Sample.mapResultName 0 (Id Sample.reduceOne)) = inr EACCES)
    as Hlocked by (vm_compute; reflexivity).
  assert (Sample.reduceResultName (Id Sample.reduceTask) ∉ unwritable Sample.brokenWorld)
    as Hw by apply not_elem_of_empty.
  split.
  - split; [exact Hlocked|].
    apply (proj1 (reduce_open_error_fatal_decode_error_not
                    Sample.mapResultName Sample.reduceResultName Sample.decode
                    Sample.listed Sample.reduceF listed_perm
                    Sample.reduceOne Sample.lockedWorld) 0 EACCES);
      [simpl; lia | exact Hlocked].
  - split; [vm_compute; reflexivity|]. split; [vm_compute; reflexivity|].
    apply (proj2 (reduce_open_error_fatal_decode_error_not
                    Sample.mapResultName Sample.reduceResultName Sample.decode
                    Sample.listed Sample.reduceF listed_perm
                    Sample.reduceTask Sample.brokenWorld) []);
      [exact brokenWorld_opens | exact Hw | reflexivity].
Defined.

(** The only intermediate file of the partition opens and holds an
    opening brace, on which the first [Decode] fails with an error that
    is not the end of the file: the reduce executor neither exits nor
    stops, it commits an (empty) output file and reports the task. *)
Lemma reduce_decode_error_counterexample :
  lookup_path (fs Sample.garbledWorld) (Sample.mapResultName 0 0)
  = inl {| data := "{"; faulty := false |} /\
  NewDecoder Sample.decode {| data := "{"; faulty := false |} = Fails Malformed /\
  exists w',
    doReduceTask Sample.mapResultName Sample.reduceResultName Sample.decode
                 Sample.listed Sample.reduceF Sample.reduceOne Sample.garbledWorld
    = Done tt w' /\
    commits_of (trace w') = [("mr-out-0"%string, EmptyString)] /\
    reports_of (trace w') = [(0, ReducePhase)] /\
    fs w' !! "mr-out-0" = Some (Regular EmptyString).
Proof.
  split; [vm_compute; reflexivity|].
  split; [vm_compute; reflexivity|].
  eexists. split; [vm_compute; reflexivity|].
  repeat split; vm_compute; reflexivity.
Qed.

(** *** C3, C4 and C10 *)

Lemma map_files_partition_the_emitted_records_witness :
  (fs Sample.mapWorld !! FilePath Sample.mapTask = Some (Regular "a b a") /\
   1 <= NReduce Sample.mapTask) /\
  let kva := Sample.mapF (FilePath Sample.mapTask) "a b a" in
  let after :=
    world_of (doMapTask Sample.mapResultName Sample.encode Sample.lastFirst
                        Sample.mapF Sample.mapTask Sample.mapWorld) in
  exists files : list (list KeyValue),
    length files = Z.to_nat (NReduce Sample.mapTask) /\
    (forall (i : nat) records,
        files !! i = Some records ->
        fs after !! Sample.mapResultName (Id Sample.mapTask) (Z.of_nat i)
        = Some (Regular (encoded Sample.encode records))) /\
    concat files ≡ₚ kva /\
    (forall (i : nat) records kv,
        files !! i = Some records ->
        kv ∈ records ->
        partition (Key kv) (NReduce Sample.mapTask) = Z.of_nat i).
Proof.
  assert (fs Sample.mapWorld !! FilePath Sample.mapTask = Some (Regular "a b a"))
    as Hfile by (vm_compute; reflexivity).
  assert (1 <= NReduce Sample.mapTask) as HN by (simpl; lia).
  split; [split; assumption|].
  exact (map_files_partition_the_emitted_records
           Sample.mapResultName Sample.encode Sample.lastFirst Sample.mapF
           lastFirst_perm Sample.mapTask Sample.mapWorld "a b a"
           Hfile HN mapTask_encodes mapWorld_writable mapResultName_two).
Defined.

Lemma map_commits_one_file_per_bucket_witness :
  (fs Sample.mapWorld !! FilePath Sample.mapTask = Some (Regular "a b a") /\
   1 <= NReduce Sample.mapTask) /\
  let kva := Sample.mapF (FilePath Sample.mapTask) "a b a" in
  let after :=
    world_of (doMapTask Sample.mapResultName Sample.encode Sample.inOrder
                        Sample.mapF Sample.mapTask Sample.mapWorld) in
  exists order,
    order ≡ₚ seq 0 (Z.to_nat (NReduce Sample.mapTask)) /\
    commits_of (trace after)
    = commits_of (trace Sample.mapWorld)
        ++ map (fun i => (Sample.mapResultName (Id Sample.mapTask) (Z.of_nat i),
                          encoded Sample.encode (bucket (NReduce Sample.mapTask) kva i)))
               order /\
    length (commits_of (trace after))
    = (length (commits_of (trace Sample.mapWorld))
       + Z.to_nat (NReduce Sample.mapTask))%nat /\
    (forall i, 0 <= i < NReduce Sample.mapTask ->
               exists payload,
                 fs after !! Sample.mapResultName (Id Sample.mapTask) i
                 = Some (Regular payload)) /\
    (kva = [] ->
     commits_of (trace after)
     = commits_of (trace Sample.mapWorld)
         ++ map (fun i => (Sample.mapResultName (Id Sample.mapTask) (Z.of_nat i),
                           EmptyString)) order).
Proof.
  assert (fs Sample.mapWorld !! FilePath Sample.mapTask = Some (Regular "a b a"))
    as Hfile by (vm_compute; reflexivity).
  assert (1 <= NReduce Sample.mapTask) as HN by (simpl; lia).
  split; [split; assumption|].
  exact (map_commits_one_file_per_bucket
           Sample.mapResultName Sample.encode Sample.inOrder Sample.mapF
           inOrder_perm Sample.mapTask Sample.mapWorld "a b a"
           Hfile HN mapTask_encodes mapWorld_writable).
Defined.

(** The text [c b a] in two partitions: the callback emits [c], [b],
    [a]; the file of bucket 0 holds [c] and then [a], as emitted, which
    is neither the order of the keys nor the same bytes as [a] and then
    [c]. *)
Lemma map_file_keeps_emission_order_witness :
  (fs Sample.orderWorld !! FilePath Sample.mapTask = Some (Regular "c b a") /\
   1 <= NReduce Sample.mapTask /\
   0 <= 0 < NReduce Sample.mapTask) /\
  let kva := Sample.mapF (FilePath Sample.mapTask) "c b a" in
  let after :=
    world_of (doMapTask Sample.mapResultName Sample.encode Sample.lastFirst
                        Sample.mapF Sample.mapTask Sample.orderWorld) in
  let records := filter (fun kv => partition (Key kv) (NReduce Sample.mapTask) = 0) kva in
  (fs after !! Sample.mapResultName (Id Sample.mapTask) 0
   = Some (Regular (encoded Sample.encode records)) /\
   (Sample.mapResultName (Id Sample.mapTask) 0, encoded Sample.encode records)
     ∈ commits_of (trace after)) /\
  kva = [{| Key := "c"; Value := "1" |}; {| Key := "b"; Value := "1" |};
         {| Key := "a"; Value := "1" |}] /\
  records = [{| Key := "c"; Value := "1" |}; {| Key := "a"; Value := "1" |}] /\
  encoded Sample.encode records = Sample.row "c" "1" +:+ Sample.row "a" "1" /\
  fs after !! Sample.mapResultName (Id Sample.mapTask) 0
  = Some (Regular (Sample.row "c" "1" +:+ Sample.row "a" "1")) /\
  encoded Sample.encode (rev records) <> encoded Sample.encode records.
Proof.
  assert (fs Sample.orderWorld !! FilePath Sample.mapTask = Some (Regular "c b a"))
    as Hfile by (vm_compute; reflexivity).
  assert (1 <= NReduce Sample.mapTask) as HN by (simpl; lia).
  assert (0 <= 0 < NReduce Sample.mapTask) as Hi by (simpl; lia).
  split; [repeat split; assumption || (simpl; lia)|].
  intros kva after records.
  assert (records = [{| Key := "c"; Value := "1" |}; {| Key := "a"; Value := "1" |}])
    as Hrecords by (vm_compute; reflexivity).
  assert (encoded Sample.encode records = Sample.row "c" "1" +:+ Sample.row "a" "1")
    as Hbytes by (vm_compute; reflexivity).
  pose proof (map_file_keeps_emission_order
                Sample.mapResultName Sample.encode Sample.lastFirst Sample.mapF
                lastFirst_perm Sample.mapTask Sample.orderWorld "c b a" 0
                Hfile HN orderWorld_encodes orderWorld_writable mapResultName_two Hi)
    as Hkept.
  split; [exact Hkept|].
  split; [vm_compute; reflexivity|].
  split; [exact Hrecords|].
  split; [exact Hbytes|].
  split.
  - rewrite <- Hbytes. exact (proj1 Hkept).
  - vm_compute. discriminate.
Defined.

(** ** Further properties on concrete worlds *)

(** X13: the files a map task leaves do not depend on the order in
    which its goroutines commit: with distinct intermediate paths, two
    runs of the same task on the same world under two schedules end with
    the same file system. *)
Theorem map_files_do_not_depend_on_goroutine_order
        (generateMapResultFileName : Z -> Z -> string)
        (Encode : KeyValue -> option string)
        (goOrder goOrder' : World -> nat -> list nat)
        (mapF : string -> string -> list KeyValue)
        (response : HeartbeatResponse) (w : World) (content : string) :
  (forall w n, goOrder w n ≡ₚ seq 0 n) ->
  (forall w n, goOrder' w n ≡ₚ seq 0 n) ->
  fs w !! FilePath response = Some (Regular content) ->
  1 <= NReduce response ->
  (forall kv, kv ∈ mapF (FilePath response) content -> is_Some (Encode kv)) ->
  (forall i, 0 <= i < NReduce response ->
             generateMapResultFileName (Id response) i ∉ unwritable w) ->
  (forall i j, 0 <= i < NReduce response -> 0 <= j < NReduce response ->
               generateMapResultFileName (Id response) i
               = generateMapResultFileName (Id response) j ->
               i = j) ->
  fs (world_of (doMapTask generateMapResultFileName Encode goOrder mapF response w))
  = fs (world_of (doMapTask generateMapResultFileName Encode goOrder' mapF response w)).
Proof.
  intros Hgo Hgo' Hfile HN Hok Hw Hinj.
  destruct (doMapTask_world generateMapResultFileName Encode goOrder mapF Hgo
              response w content Hfile HN Hok Hw) as (order & Hperm & -> & _).
  destruct (doMapTask_world generateMapResultFileName Encode goOrder' mapF Hgo'
              response w content Hfile HN Hok Hw) as (order' & Hperm' & -> & _).
  apply published_any_order.
  - now rewrite Hperm, Hperm'.
  - rewrite Hperm. apply NoDup_seq.
  - intros j k Hj Hk Hsame. rewrite Hperm in Hj, Hk.
    apply elem_of_seq in Hj, Hk.
    apply Nat2Z.inj, Hinj; [lia | lia | exact Hsame].
Qed.

Lemma map_unreadable_input_is_fatal_witness :
  doMapTask Sample.mapResultName Sample.encode Sample.lastFirst Sample.mapF
            Sample.mapTask Sample.idleWorld
  = Crashed (LogFatal "cannot open in.txt")
            (with_trace Sample.idleWorld [EvTask MapPhase 0]) /\
  doMapTask Sample.mapResultName Sample.encode Sample.lastFirst Sample.mapF
            Sample.mapTask Sample.unreadableWorld
  = Crashed (LogFatal "cannot read in.txt")
            (with_trace Sample.unreadableWorld [EvTask MapPhase 0]).
Proof.
  split.
  - apply (map_unreadable_input_is_fatal
             Sample.mapResultName Sample.encode Sample.lastFirst Sample.mapF
             Sample.mapTask Sample.idleWorld).
    intros content. vm_compute. discriminate.
  - apply (map_unreadable_input_is_fatal
             Sample.mapResultName Sample.encode Sample.lastFirst Sample.mapF
             Sample.mapTask Sample.unreadableWorld).
    intros content. vm_compute. discriminate.
Defined.

Lemma map_partition_count_not_positive_witness :
  (fs Sample.mapWorld !! FilePath Sample.zeroTask = Some (Regular "a b a") /\
   NReduce Sample.zeroTask <= 0) /\
  doMapTask Sample.mapResultName Sample.encode Sample.lastFirst Sample.mapF
            Sample.zeroTask Sample.mapWorld
  = Crashed (GoPanic "integer divide by zero")
            (with_trace Sample.mapWorld [EvTask MapPhase 0; EvMapF "in.txt" "a b a"]).
Proof.
  assert (fs Sample.mapWorld !! FilePath Sample.zeroTask = Some (Regular "a b a"))
    as Hfile by (vm_compute; reflexivity).
  assert (NReduce Sample.zeroTask <= 0) as HN by (simpl; lia).
  split; [split; assumption|].
  exact (map_partition_count_not_positive
           Sample.mapResultName Sample.encode Sample.lastFirst Sample.mapF
           lastFirst_perm Sample.zeroTask Sample.mapWorld "a b a" Hfile HN).
Defined.

Lemma map_reports_once_after_all_commits_witness :
  (fs Sample.mapWorld !! FilePath Sample.mapTask = Some (Regular "a b a") /\
   1 <= NReduce Sample.mapTask /\
   coordinator Sample.mapWorld = [Served ReportBody]) /\
  let kva := Sample.mapF (FilePath Sample.mapTask) "a b a" in
  exists order w',
    order ≡ₚ seq 0 (Z.to_nat (NReduce Sample.mapTask)) /\
    doMapTask Sample.mapResultName Sample.encode Sample.lastFirst Sample.mapF
              Sample.mapTask Sample.mapWorld
    = Done tt w' /\
    trace w'
    = trace Sample.mapWorld
        ++ [EvTask MapPhase (Id Sample.mapTask);
            EvMapF (FilePath Sample.mapTask) "a b a"]
        ++ map (fun i => EvCommit (Sample.mapResultName (Id Sample.mapTask) (Z.of_nat i))
                                  (encoded Sample.encode
                                           (bucket (NReduce Sample.mapTask) kva i)))
               order
        ++ [EvCall "Coordinator.Report" (ReportRequest (Id Sample.mapTask) MapPhase)] /\
    coordinator w' = [].
Proof.
  assert (fs Sample.mapWorld !! FilePath Sample.mapTask = Some (Regular "a b a"))
    as Hfile by (vm_compute; reflexivity).
  assert (1 <= NReduce Sample.mapTask) as HN by (simpl; lia).
  split; [repeat split; assumption || reflexivity|].
  exact (map_reports_once_after_all_commits
           Sample.mapResultName Sample.encode Sample.lastFirst Sample.mapF
           lastFirst_perm Sample.mapTask Sample.mapWorld "a b a" []
           Hfile HN mapTask_encodes mapWorld_writable eq_refl).
Defined.

Lemma reduce_without_map_tasks_witness :
  NMap Sample.reduceNone <= 0 /\
  doReduceTask Sample.mapResultName Sample.reduceResultName Sample.decode
               Sample.listed Sample.reduceF Sample.reduceNone Sample.mapWorld
  = doReport (Id Sample.reduceNone) ReducePhase
             (publish (with_trace Sample.mapWorld
                                  (trace Sample.mapWorld
                                     ++ [EvTask ReducePhase (Id Sample.reduceNone)]))
                      (Sample.reduceResultName (Id Sample.reduceNone)) EmptyString).
Proof.
  assert (NMap Sample.reduceNone <= 0) as HM by (simpl; lia).
  split; [exact HM|].
  apply (reduce_without_map_tasks
           Sample.mapResultName Sample.reduceResultName Sample.decode
           Sample.listed Sample.reduceF listed_perm
           Sample.reduceNone Sample.mapWorld HM).
  apply not_elem_of_empty.
Defined.

Lemma worker_sleeps_once_per_wait_witness :
  exists w',
    Worker Sample.mapResultName Sample.reduceResultName Sample.zeroJob
           Sample.encode Sample.decode Sample.lastFirst Sample.listed
           Sample.mapF Sample.reduceF Sample.idleWorld
    = Some (Done tt w') /\
    sleeps_of (trace w')
    = sleeps_of (trace Sample.idleWorld)
        ++ replicate (length [Sample.idle WaitJob; Sample.idle WaitJob]) (1 * Second) /\
    tasks_of (trace w') = tasks_of (trace Sample.idleWorld) /\
    reports_of (trace w') = reports_of (trace Sample.idleWorld) /\
    commits_of (trace w') = commits_of (trace Sample.idleWorld) /\
    fs w' = fs Sample.idleWorld /\
    coordinator w' = [].
Proof.
  apply (worker_sleeps_once_per_wait
           Sample.mapResultName Sample.reduceResultName Sample.zeroJob
           Sample.encode Sample.decode Sample.lastFirst Sample.listed
           Sample.mapF Sample.reduceF Sample.idleWorld
           [Sample.idle WaitJob; Sample.idle WaitJob] (Sample.idle CompleteJob) []).
  - reflexivity.
  - repeat constructor.
  - reflexivity.
Defined.

Lemma worker_unknown_job_panics_witness :
  Worker Sample.mapResultName Sample.reduceResultName Sample.zeroJob
         Sample.encode Sample.decode Sample.lastFirst Sample.listed
         Sample.mapF Sample.reduceF Sample.strangeWorld
  = Some (Crashed (GoPanic "unexpected jobType")
                  (with_trace (with_coordinator Sample.strangeWorld [])
                              (trace Sample.strangeWorld
                                 ++ [EvCall "Coordinator.Heartbeat" HeartbeatRequest]))).
Proof.
  apply (worker_unknown_job_panics
           Sample.mapResultName Sample.reduceResultName Sample.zeroJob
           Sample.encode Sample.decode Sample.lastFirst Sample.listed
           Sample.mapF Sample.reduceF Sample.strangeWorld
           (Sample.idle (OtherJob 7)) 7 []); reflexivity.
Defined.


Lemma reduce_delivers_every_value_once_witness :
  let kva :=
    flat_map (fun i => records_at Sample.decode (fs Sample.reduceWorld)
                         (Sample.mapResultName (Z.of_nat i) (Id Sample.reduceTask)))
             (seq 0 (Z.to_nat (NMap Sample.reduceTask))) in
  exists entries,
    calls_of (trace (world_of
                       (doReduceTask Sample.mapResultName Sample.reduceResultName
                                     Sample.decode Sample.listed Sample.reduceF
                                     Sample.reduceTask Sample.reduceWorld)))
    = calls_of (trace Sample.reduceWorld) ++ entries /\
    delivered entries ≡ₚ map (fun kv => (Key kv, Value kv)) kva.
Proof.
  exact (reduce_delivers_every_value_once
           Sample.mapResultName Sample.reduceResultName Sample.decode
           Sample.listed Sample.reduceF listed_perm
           Sample.reduceTask Sample.reduceWorld reduceWorld_opens).
Defined.

Lemma reduce_after_map_gets_its_partition_witness :
  let kva := Sample.mapF (FilePath Sample.mapTask) "a b a" in
  let own := filter (fun kv => partition (Key kv) (NReduce Sample.mapTask)
                               = Id Sample.reduceOne) kva in
  values_of (Sample.decode (encoded Sample.encode own)) = own /\
  let between :=
    world_of (doMapTask Sample.mapResultName Sample.encode Sample.lastFirst
                        Sample.mapF Sample.mapTask Sample.mapWorld) in
  exists entries,
    calls_of (trace (world_of
                       (doReduceTask Sample.mapResultName Sample.reduceResultName
                                     Sample.decode Sample.listed Sample.reduceF
                                     Sample.reduceOne between)))
    = calls_of (trace between) ++ entries /\
    NoDup entries.*1 /\
    (forall key,
        key ∈ entries.*1 <->
        partition key (NReduce Sample.mapTask) = Id Sample.reduceOne /\
        exists kv, kv ∈ kva /\ Key kv = key) /\
    (forall key values, (key, values) ∈ entries -> values = values_for key kva).
Proof.
  intros kva own.
  assert (values_of (Sample.decode (encoded Sample.encode own)) = own)
    as Hcodec by (vm_compute; reflexivity).
  split; [exact Hcodec|].
  apply (reduce_after_map_gets_its_partition
           Sample.mapResultName Sample.reduceResultName Sample.encode Sample.decode
           Sample.lastFirst Sample.listed Sample.mapF Sample.reduceF
           listed_perm lastFirst_perm
           Sample.mapTask Sample.reduceOne Sample.mapWorld "a b a").
  - vm_compute; reflexivity.
  - simpl; lia.
  - exact mapTask_encodes.
  - exact mapWorld_writable.
  - exact mapResultName_two.
  - reflexivity.
  - reflexivity.
  - simpl; lia.
  - exact Hcodec.
Defined.

Lemma map_files_do_not_depend_on_goroutine_order_witness :
  fs (world_of (doMapTask Sample.mapResultName Sample.encode Sample.inOrder
                          Sample.mapF Sample.mapTask Sample.mapWorld))
  = fs (world_of (doMapTask Sample.mapResultName Sample.encode Sample.lastFirst
                            Sample.mapF Sample.mapTask Sample.mapWorld)).
Proof.
  apply (map_files_do_not_depend_on_goroutine_order
           Sample.mapResultName Sample.encode Sample.inOrder Sample.lastFirst
           Sample.mapF Sample.mapTask Sample.mapWorld "a b a").
  - exact inOrder_perm.
  - exact lastFirst_perm.
  - vm_compute; reflexivity.
  - simpl; lia.
  - exact mapTask_encodes.
  - exact mapWorld_writable.
  - exact mapResultName_two.
Defined.

Lemma worker_runs_one_task_at_a_time_witness :
  coordinator Sample.flakyWorld
  = Served (HeartbeatBody Sample.reduceNone)
      :: [CallError; Served (HeartbeatBody (Sample.idle CompleteJob))] /\
  let w1 := with_trace (with_coordinator Sample.flakyWorld
                          [CallError; Served (HeartbeatBody (Sample.idle CompleteJob))])
                       (trace Sample.flakyWorld
                          ++ [EvCall "Coordinator.Heartbeat" HeartbeatRequest]) in
  Worker Sample.mapResultName Sample.reduceResultName Sample.zeroJob
         Sample.encode Sample.decode Sample.lastFirst Sample.listed
         Sample.mapF Sample.reduceF Sample.flakyWorld
  = match doReduceTask Sample.mapResultName Sample.reduceResultName Sample.decode
                       Sample.listed Sample.reduceF Sample.reduceNone w1 with
    | Done _ w' =>
        Worker Sample.mapResultName Sample.reduceResultName Sample.zeroJob
               Sample.encode Sample.decode Sample.lastFirst Sample.listed
               Sample.mapF Sample.reduceF w'
    | Crashed why w' => Some (Crashed why w')
    end.
Proof.
  split; [reflexivity|].
  exact (proj2 (worker_runs_one_task_at_a_time
                  Sample.mapResultName Sample.reduceResultName Sample.zeroJob
                  Sample.encode Sample.decode Sample.lastFirst Sample.listed
                  Sample.mapF Sample.reduceF
                  Sample.flakyWorld Sample.reduceNone
                  [CallError; Served (HeartbeatBody (Sample.idle CompleteJob))]
                  eq_refl) eq_refl).
Defined.
